(** * jquery-moodboard: a shallow embedding of [moodboard.js]

    The plugin keeps one plain JavaScript object (``data``) per slide
    container, attaches it to the container with [$.data], and shares it by
    reference between the window-load callback, the [setInterval] callback
    and every command handler.  The embedding therefore has

    - a heap of [Data] objects addressed by references,
    - the container: attached data reference, class list, measured size,
      the [.slide] elements with their inline styles, the appended
      [.controls] blocks,
    - the callbacks bound to the window load event and the running
      interval timers, each closure holding the reference it captured,
    - a state-and-exception monad [M]: a [TypeError] keeps the mutations made
      before it was thrown, as in JavaScript.

    Conventions: the jQuery selection is the one container of the page, so
    [this.each(f)] is one call of [f]; numbers that hold indices are integers
    ([Z], with [%] the truncating remainder and [NaN] for a zero divisor);
    pixel dimensions are rationals; the three function-valued options keep
    their default implementations. *)

From Stdlib Require Import ZArith QArith Qminmax Lia Lqa.
From stdpp Require Import base option list gmap strings.

Local Open Scope Z_scope.

(** ** Data model *)

Abbreviation ref := nat.

Inductive Err :=
  | TypeError
  | JQError (msg : string).

(** The ``moodboard`` data object (the documented state attributes and the
    merged options). *)
Record Data := mkData {
  count : Z;
  current : Z;
  interval : option positive;
  slides : list nat;
  widths : list Q;
  heights : list Q;
  width : option Q;
  height : option Q;
  slide_time : Q;
  autostart : bool;
  controls : bool
}.

(** The options object handed to [init]; [None] is an absent key. *)
Record Options := mkOptions {
  o_width : option Q;
  o_height : option Q;
  o_slide_time : option Q;
  o_autostart : option bool;
  o_controls : option bool
}.

Definition no_options : Options := mkOptions None None None None None.

(** A [.slide] element: its measured content box and its inline style. *)
Record Element := mkElement {
  el_width : Q;
  el_height : Q;
  el_style : gmap string Q
}.

(** Closure bound to the window load event by [_do_initialize]. *)
Record LoadClosure := mkLoadClosure {
  lc_slides : list nat;
  lc_data : ref
}.

(** Closure registered by [setInterval] in [play]. *)
Record Timer := mkTimer {
  tm_data : ref;
  tm_delay : Q
}.

Record World := mkWorld {
  heap : list Data;
  attached : option ref;
  classes : list string;
  mb_width : Q;
  mb_height : Q;
  dom : list Element;
  ctrls : list (list (string * string));
  onload : list LoadClosure;
  loaded : bool;
  timers : gmap positive Timer;
  next_timer : positive
}.

(** ** The state-and-exception monad *)

Inductive Res (A : Type) :=
  | Ok (a : A) (w : World)
  | Throw (e : Err) (w : World).
Arguments Ok {A} a w.
Arguments Throw {A} e w.

Definition world_of {A} (r : Res A) : World :=
  match r with Ok _ w => w | Throw _ w => w end.

Definition M (A : Type) : Type := World → Res A.

Definition ret {A} (a : A) : M A := λ w, Ok a w.

Definition bind {A B} (m : M A) (f : A → M B) : M B :=
  λ w, match m w with
       | Ok a w' => f a w'
       | Throw e w' => Throw e w'
       end.

Definition throw {A} (e : Err) : M A := λ w, Throw e w.
Definition gets {A} (f : World → A) : M A := λ w, Ok (f w) w.
Definition modify (f : World → World) : M unit := λ w, Ok tt (f w).

Declare Scope js_scope.
Delimit Scope js_scope with js.
Notation "x <- m ;; k" := (bind m (λ x, k))
  (at level 100, m at next level, right associativity) : js_scope.
Notation "m ;;; k" := (bind m (λ _, k))
  (at level 100, right associativity) : js_scope.
Local Open Scope js_scope.

Fixpoint for_each {A} (l : list A) (f : A → M unit) : M unit :=
  match l with
  | [] => ret tt
  | x :: l' => f x ;;; for_each l' f
  end.

(** ** World updates *)

Definition set_heap (h : list Data) (w : World) : World :=
  mkWorld h (attached w) (classes w) (mb_width w) (mb_height w) (dom w)
          (ctrls w) (onload w) (loaded w) (timers w) (next_timer w).
Definition set_attached (a : option ref) (w : World) : World :=
  mkWorld (heap w) a (classes w) (mb_width w) (mb_height w) (dom w)
          (ctrls w) (onload w) (loaded w) (timers w) (next_timer w).
Definition set_classes (c : list string) (w : World) : World :=
  mkWorld (heap w) (attached w) c (mb_width w) (mb_height w) (dom w)
          (ctrls w) (onload w) (loaded w) (timers w) (next_timer w).
Definition set_dom (d : list Element) (w : World) : World :=
  mkWorld (heap w) (attached w) (classes w) (mb_width w) (mb_height w) d
          (ctrls w) (onload w) (loaded w) (timers w) (next_timer w).
Definition set_ctrls (c : list (list (string * string))) (w : World) : World :=
  mkWorld (heap w) (attached w) (classes w) (mb_width w) (mb_height w) (dom w)
          c (onload w) (loaded w) (timers w) (next_timer w).
Definition set_onload (o : list LoadClosure) (w : World) : World :=
  mkWorld (heap w) (attached w) (classes w) (mb_width w) (mb_height w) (dom w)
          (ctrls w) o (loaded w) (timers w) (next_timer w).
Definition set_loaded (b : bool) (w : World) : World :=
  mkWorld (heap w) (attached w) (classes w) (mb_width w) (mb_height w) (dom w)
          (ctrls w) (onload w) b (timers w) (next_timer w).
Definition set_timers (t : gmap positive Timer) (n : positive) (w : World) : World :=
  mkWorld (heap w) (attached w) (classes w) (mb_width w) (mb_height w) (dom w)
          (ctrls w) (onload w) (loaded w) t n.

(** Field assignments on a [Data] object. *)
Definition with_current (n : Z) (d : Data) : Data :=
  mkData (count d) n (interval d) (slides d) (widths d) (heights d)
         (width d) (height d) (slide_time d) (autostart d) (controls d).
Definition with_interval (t : option positive) (d : Data) : Data :=
  mkData (count d) (current d) t (slides d) (widths d) (heights d)
         (width d) (height d) (slide_time d) (autostart d) (controls d).
Definition with_width (x : Q) (d : Data) : Data :=
  mkData (count d) (current d) (interval d) (slides d) (widths d) (heights d)
         (Some x) (height d) (slide_time d) (autostart d) (controls d).
Definition with_height (x : Q) (d : Data) : Data :=
  mkData (count d) (current d) (interval d) (slides d) (widths d) (heights d)
         (width d) (Some x) (slide_time d) (autostart d) (controls d).
Definition push_slide (h : nat) (eh ew : Q) (d : Data) : Data :=
  mkData (count d) (current d) (interval d) (slides d ++ [h])
         (widths d ++ [ew]) (heights d ++ [eh])
         (width d) (height d) (slide_time d) (autostart d) (controls d).

(** ** JavaScript and jQuery primitives *)

(** [a % b] on integers: the sign follows the dividend, [NaN] when [b] is 0. *)
Definition js_rem (a b : Z) : option Z :=
  if decide (b = 0) then None else Some (Z.rem a b).

(** [arr[k]] for an integer [k]: [undefined] outside the array. *)
Definition js_index {A} (l : list A) (k : Z) : option A :=
  if decide (k < 0) then None else l !! Z.to_nat k.

(** [!x] for a number-or-null: null and 0 are falsy. *)
Definition falsy (x : option Q) : bool :=
  match x with
  | None => true
  | Some q => Qeq_bool q 0
  end.

Definition Math_max (a b : Q) : Q := Qmax a b.

(** Property access on ``data``: a [TypeError] when it is [undefined]. *)
Definition deref (data : option ref) : M (ref * Data) :=
  λ w, match data with
       | Some r => match heap w !! r with
                   | Some d => Ok (r, d) w
                   | None => Throw TypeError w
                   end
       | None => Throw TypeError w
       end.

Definition assign (r : ref) (f : Data → Data) : M unit :=
  modify (λ w, set_heap (alter f r (heap w)) w).

Definition alloc (d : Data) : M ref :=
  λ w, Ok (length (heap w)) (set_heap (heap w ++ [d]) w).

(** [$el.css({...})]: every property with a defined value is written to the
    inline style; [undefined] values are skipped. *)
Definition css_props (props : list (string * option Q)) (st : gmap string Q)
  : gmap string Q :=
  foldl (λ acc kv, match kv.2 with
                   | Some v => <[kv.1 := v]> acc
                   | None => acc
                   end) st props.

Definition css_element (props : list (string * option Q)) (e : Element) : Element :=
  mkElement (el_width e) (el_height e) (css_props props (el_style e)).

(** [x.css(props)] where [x] was read from an array: a [TypeError] when [x]
    is [undefined]. *)
Definition css (x : option nat) (props : list (string * option Q)) : M unit :=
  match x with
  | Some h => modify (λ w, set_dom (alter (css_element props) h (dom w)) w)
  | None => throw TypeError
  end.

Definition hasClass (c : string) (l : list string) : bool := bool_decide (c ∈ l).

(** [addClass] appends a class that is not there yet; [removeClass] drops
    every occurrence. *)
Definition add_class (c : string) (l : list string) : list string :=
  if hasClass c l then l else l ++ [c].

Definition remove_class (c : string) (l : list string) : list string :=
  filter (λ x, x ≠ c) l.

Definition addClass (c : string) : M unit :=
  modify (λ w, set_classes (add_class c (classes w)) w).

Definition removeClass (c : string) : M unit :=
  modify (λ w, set_classes (remove_class c (classes w)) w).

Definition setInterval (r : ref) (delay : Q) : M positive :=
  λ w, Ok (next_timer w)
          (set_timers (<[next_timer w := mkTimer r delay]> (timers w))
                      (Pos.succ (next_timer w)) w).

Definition clearInterval (t : positive) : M unit :=
  modify (λ w, set_timers (delete t (timers w)) (next_timer w) w).

(** ** The plugin *)

(** ToNumber of a number-or-null in arithmetic position. *)
Definition num (x : option Q) : Q := default 0%Q x.

(** The object literal handed to [css] in the loop of [_init_slides], for
    slide index [i]. *)
Definition layout_props (data : Data) (i : nat) : list (string * option Q) :=
  [ ("width"%string, widths data !! i);
    ("height"%string, heights data !! i);
    ("left"%string,
      (λ wi, Math_max 0 ((num (width data) - wi) / 2)%Q) <$> widths data !! i);
    ("top"%string,
      (λ hi, Math_max 0 ((num (height data) - hi) / 2)%Q) <$> heights data !! i);
    ("opacity"%string, Some (if decide (i = 0%nat) then 1%Q else 0%Q)) ].

(** Body of the loop of [_init_slides] for slide index [i]; the loop only
    writes styles, so it reads the data object as it is when the loop
    starts. *)
Definition layout_slide (data : Data) (i : nat) : M unit :=
  css (slides data !! i) (layout_props data i).

(** Standard implementation of [_init_slides]. *)
Definition _init_slides (r : ref) : M unit :=
  rd <- deref (Some r);;
  (if falsy (width rd.2)
   then (x <- gets mb_width;; assign r (with_width x))
   else ret tt);;;
  rd <- deref (Some r);;
  (if falsy (height rd.2)
   then (x <- gets mb_height;; assign r (with_height x))
   else ret tt);;;
  rd <- deref (Some r);;
  for_each (seq 0 (length (slides rd.2))) (layout_slide rd.2).

(** [_init_controls]: one [.controls] block with three anchors, each given
    as (class, command bound to its click). *)
Definition controls_block : list (string * string) :=
  [ ("previous", "previous"); ("play", "playpause"); ("next", "next") ]%string.

Definition _init_controls : M unit :=
  modify (λ w, set_ctrls (ctrls w ++ [controls_block]) w).

(** The styles [_reveal] writes on the outgoing and on the incoming slide. *)
Definition hide_props : list (string * option Q) :=
  [ ("z-index"%string, Some 100%Q); ("opacity"%string, Some 0%Q) ].
Definition show_props : list (string * option Q) :=
  [ ("z-index"%string, Some 101%Q); ("opacity"%string, Some 1%Q) ].

(** [_reveal($mb, data, newidx)]; [newidx] is [None] when the caller's
    remainder was [NaN], and then [data.slides[newidx]] is [undefined]. *)
Definition _reveal (r : ref) (newidx : option Z) : M unit :=
  rd <- deref (Some r);;
  css (js_index (slides rd.2) (current rd.2)) hide_props;;;
  match newidx with
  | None => throw TypeError
  | Some n =>
      css (js_index (slides rd.2) n) show_props;;;
      assign r (with_current n)
  end.

(** [$.extend(data, defaults, options)] on the object built for [n] found
    slides: the defaults are no width, no height, a slide time of 2500,
    autostart and controls on; a key present in [options] wins. *)
Definition extend_defaults (n : nat) (o : Options) : Data :=
  mkData (Z.of_nat n) 0 None [] [] []
         (o_width o) (o_height o)
         (default 2500%Q (o_slide_time o))
         (default true (o_autostart o))
         (default true (o_controls o)).

(** Command handler wrapper: read the attached data, run [_fn], store its
    result when it is truthy. *)
Definition _handler (_fn : option ref → M (option ref)) : M unit :=
  data <- gets attached;;
  r <- _fn data;;
  match r with
  | Some x => modify (set_attached (Some x))
  | None => ret tt
  end.

(** Stop the slideshow; removes the ``playing`` class. *)
Definition pause : M unit :=
  _handler (λ data,
    rd <- deref data;;
    match interval rd.2 with
    | Some t =>
        clearInterval t;;;
        assign rd.1 (with_interval None);;;
        removeClass "playing";;;
        ret (Some rd.1)
    | None => ret None
    end).

(** Start the slideshow when it is not already running; adds the
    ``playing`` class. *)
Definition play : M unit :=
  _handler (λ data,
    rd <- deref data;;
    match interval rd.2 with
    | None =>
        addClass "playing";;;
        t <- setInterval rd.1 (slide_time rd.2);;
        assign rd.1 (with_interval (Some t));;;
        ret None
    | Some _ => ret None
    end).

(** Start or stop the slideshow timer. *)
Definition playpause : M unit :=
  _handler (λ data,
    rd <- deref data;;
    match interval rd.2 with
    | Some _ => pause;;; ret None
    | None => play;;; ret None
    end).

(** The three navigation commands share their shape: pause when a timer
    handle is set, then reveal the index computed from the current state. *)
Definition navigate (target : Data → option Z) : M unit :=
  _handler (λ data,
    rd <- deref data;;
    (match interval rd.2 with Some _ => pause | None => ret tt end);;;
    rd' <- deref data;;
    _reveal rd'.1 (target rd'.2);;;
    ret (Some rd'.1)).

Definition next : M unit :=
  navigate (λ d, js_rem (current d + 1) (count d)).

Definition previous : M unit :=
  navigate (λ d, js_rem (current d + count d - 1) (count d)).

Definition jump (newidx : Z) : M unit :=
  navigate (λ d, js_rem newidx (count d)).

(** Destroy the moodboard: stop the timer, remove the added elements, and
    return [null]. *)
Definition destroy : M unit :=
  _handler (λ data,
    rd <- deref data;;
    (match interval rd.2 with Some t => clearInterval t | None => ret tt end);;;
    removeClass "playing";;;
    modify (set_ctrls []);;;
    ret None).

(** The callback [play] hands to [setInterval], for the timer [t]. *)
Definition tick (t : positive) : M unit :=
  tm <- gets (λ w, timers w !! t);;
  match tm with
  | None => ret tt
  | Some c =>
      rd <- deref (Some (tm_data c));;
      _reveal rd.1 (js_rem (current rd.2 + 1) (count rd.2));;;
      modify (set_attached (Some rd.1))
  end.

(** [$slide.height()] and [$slide.width()] of the found element [h]. *)
Definition measure (h : nat) : M (Q * Q) :=
  gets (λ w, match dom w !! h with
             | Some e => (el_height e, el_width e)
             | None => (0%Q, 0%Q)
             end).

(** The callback [_do_initialize] binds to the window load event. *)
Definition on_window_load (c : LoadClosure) : M unit :=
  for_each (lc_slides c) (λ h,
    hw <- measure h;;
    assign (lc_data c) (push_slide h hw.1 hw.2));;;
  _init_slides (lc_data c);;;
  rd <- deref (Some (lc_data c));;
  (if controls rd.2 then _init_controls else ret tt);;;
  modify (set_attached (Some (lc_data c)));;;
  (if autostart rd.2 && bool_decide (1 < count rd.2)
   then playpause else ret tt);;;
  addClass "moodboard".

(** Build the data object and defer measuring and layout to the window
    load event; nothing is attached to the container yet. *)
Definition _do_initialize (options : Options) : M unit :=
  found <- gets (λ w, seq 0 (length (dom w)));;
  r <- alloc (extend_defaults (length found) options);;
  modify (λ w, set_onload (onload w ++ [mkLoadClosure found r]) w).

(** [init] initializes a container that has no data attached. *)
Definition init (options : Options) : M unit :=
  data <- gets attached;;
  match data with
  | None => _do_initialize options
  | Some _ => ret tt
  end.

(** The window load event fires once; callbacks bound later never run. *)
Definition window_load : M unit :=
  b <- gets loaded;;
  if b : bool then ret tt
  else (modify (set_loaded true);;;
        cbs <- gets onload;;
        for_each cbs on_window_load).

(** ** Events of a page *)

(** What can happen to a page: a call [$mb.moodboard(...)] (the dispatcher
    [$.fn.moodboard] selects the method), the window load event, and a
    firing of interval timer [t]. *)
Inductive Event :=
  | EInit (o : Options)
  | ENext
  | EPrevious
  | EJump (n : Z)
  | EPlay
  | EPause
  | EPlayPause
  | EDestroy
  | ELoad
  | ETick (t : positive).

Definition step (e : Event) : M unit :=
  match e with
  | EInit o => init o
  | ENext => next
  | EPrevious => previous
  | EJump n => jump n
  | EPlay => play
  | EPause => pause
  | EPlayPause => playpause
  | EDestroy => destroy
  | ELoad => window_load
  | ETick t => tick t
  end.

(** A script: the events in order, stopping at the first exception. *)
Definition exec (evs : list Event) : M unit := for_each evs step.

(** A page's life: an uncaught exception ends its handler only; the
    mutations made so far stay and later events still run. *)
Fixpoint run (evs : list Event) (w : World) : World :=
  match evs with
  | [] => w
  | e :: evs' => run evs' (world_of (step e w))
  end.

(** A page before any call: [n] slides with the given measured boxes and no
    inline style. *)
Definition fresh_page (cls : list string) (cw ch : Q) (boxes : list (Q * Q)) : World :=
  mkWorld [] None cls cw ch
          (map (λ b, mkElement b.1 b.2 ∅) boxes)
          [] [] false ∅ 1%positive.

(** ** Observations on a page *)

#[global] Instance Q_eq_dec : EqDecision Q.
Proof. solve_decision. Defined.

Definition opacity (e : Element) : option Q := el_style e !! "opacity"%string.
Definition z_index (e : Element) : option Q := el_style e !! "z-index"%string.

(** The data object attached to the container, when there is one. *)
Definition state (w : World) : option Data := attached w ≫= (heap w !!.).

(** Revealed visual state: opacity 1 and the raised stacking order. *)
Definition is_revealed (e : Element) : bool :=
  bool_decide (opacity e = Some 1%Q ∧ z_index e = Some 101%Q).

Definition is_hidden (e : Element) : bool :=
  bool_decide (opacity e = Some 0%Q).

(** Exactly one slide is revealed and every other slide is hidden. *)
Definition exactly_one_revealed (w : World) : bool :=
  bool_decide (length (filter (λ e, is_revealed e = true) (dom w)) = 1%nat)
  && forallb (λ e, is_revealed e || is_hidden e) (dom w).

(** Slide [i] is the one visible slide: it has opacity 1 and every other
    slide opacity 0; a stacking order, once assigned by [_reveal], is 101 on
    the visible slide and 100 on a hidden one. *)
Definition slide_shown (i j : nat) (e : Element) : Prop :=
  if decide (j = i)
  then opacity e = Some 1%Q ∧ (z_index e = None ∨ z_index e = Some 101%Q)
  else opacity e = Some 0%Q ∧ (z_index e = None ∨ z_index e = Some 100%Q).

Definition shows (w : World) (i : nat) : Prop :=
  (i < length (dom w))%nat ∧
  ∀ j e, dom w !! j = Some e → slide_shown i j e.

(** The timer handle of the attached state is set. *)
Definition handle_set (w : World) : bool :=
  match state w with
  | Some d => bool_decide (is_Some (interval d))
  | None => false
  end.

(** Some interval timer of the page is running. *)
Definition timer_running (w : World) : bool :=
  negb (Nat.eqb (size (timers w)) 0).

Definition marked_playing (w : World) : bool := hasClass "playing" (classes w).

(** The timers of the page are exactly what the handle of the attached
    object [r] names, and the ``playing`` class marks a set handle. *)
Definition timer_at (r : ref) (w : World) : Prop :=
  attached w = Some r ∧
  ∃ d, heap w !! r = Some d ∧
       marked_playing w = bool_decide (is_Some (interval d)) ∧
       match interval d with
       | Some t => timers w = {[ t := mkTimer r (slide_time d) ]}
       | None => timers w = ∅
       end.

Definition timer_state (w : World) : Prop := ∃ r, timer_at r w.

(** A board set up by one initialization: the object [d] behind the
    reference [r] is attached, it lists every slide of the page, its current
    index is in range, every running timer works on it, and the current
    slide is the visible one. *)
Definition board_at (r : ref) (d : Data) (w : World) : Prop :=
  attached w = Some r ∧ heap w !! r = Some d ∧
  loaded w = true ∧
  slides d = seq 0 (length (dom w)) ∧
  count d = Z.of_nat (length (dom w)) ∧
  0 ≤ current d < count d ∧
  (∀ t c, timers w !! t = Some c → tm_data c = r) ∧
  shows w (Z.to_nat (current d)).

Definition board (w : World) : Prop := ∃ r d, board_at r d w.

(** Events that keep a board intact: everything but a jump to a negative
    index. *)
Definition in_range (e : Event) : bool :=
  match e with
  | EJump n => bool_decide (0 ≤ n)
  | _ => true
  end.

Definition not_destroy (e : Event) : bool :=
  match e with
  | EDestroy => false
  | _ => true
  end.

(** The data object after the size resolution at the top of
    [_init_slides], for a container measuring [cw] by [ch]. *)
Definition resolve_size (cw ch : Q) (d : Data) : Data :=
  let d1 := if falsy (width d) then with_width cw d else d in
  if falsy (height d1) then with_height ch d1 else d1.

(** The slides after the loop of [_init_slides] has run over the indices
    [l]. *)
Definition laid_out (d : Data) (l : list nat) (els : list Element) : list Element :=
  foldl (λ acc i, match slides d !! i with
                  | Some h => alter (css_element (layout_props d i)) h acc
                  | None => acc
                  end) els l.

(** The data object after the load callback has pushed the slides [l],
    measured in [els]. *)
Definition pushed (els : list Element) (l : list nat) (d : Data) : Data :=
  foldl (λ acc h, match els !! h with
                  | Some e => push_slide h (el_height e) (el_width e) acc
                  | None => push_slide h 0%Q 0%Q acc
                  end) d l.

(** The world [pause] leaves when the handle [t] was set on object [r]. *)
Definition paused (r : ref) (t : positive) (w : World) : World :=
  set_attached (Some r)
    (set_classes (remove_class "playing" (classes w))
      (set_heap (alter (with_interval None) r (heap w))
        (set_timers (delete t (timers w)) (next_timer w) w))).

(** The world [play] leaves when no handle was set on object [r]. *)
Definition playing (r : ref) (delay : Q) (w : World) : World :=
  set_heap (alter (with_interval (Some (next_timer w))) r (heap w))
    (set_timers (<[next_timer w := mkTimer r delay]> (timers w))
                (Pos.succ (next_timer w))
       (set_classes (add_class "playing" (classes w)) w)).

(** The world the load callback [c] leaves when it finds the object [d]
    behind its reference: slides pushed and laid out, controls rendered,
    state attached, autoplay started, container marked. *)
Definition after_load (c : LoadClosure) (d : Data) (w : World) : World :=
  let r := lc_data c in
  let d' := resolve_size (mb_width w) (mb_height w)
              (pushed (dom w) (lc_slides c) d) in
  let w1 := set_dom (laid_out d' (seq 0 (length (slides d'))) (dom w))
              (set_heap (<[r := d']> (heap w)) w) in
  let w2 := if controls d'
            then set_ctrls (ctrls w1 ++ [controls_block]) w1 else w1 in
  let w3 := set_attached (Some r) w2 in
  let w4 := if autostart d' && bool_decide (1 < count d')
            then match interval d' with
                 | Some t => paused r t w3
                 | None => playing r (slide_time d') w3
                 end
            else w3 in
  set_classes (add_class "moodboard" (classes w4)) w4.

(** The world [destroy] leaves on a container with state [d] attached. *)
Definition destroyed (d : Data) (w : World) : World :=
  set_ctrls []
    (set_classes (remove_class "playing" (classes w))
      (match interval d with
       | Some t => set_timers (delete t (timers w)) (next_timer w) w
       | None => w
       end)).

(** The world [_reveal] leaves when both array reads are defined. *)
Definition revealed_world (r : ref) (h h' : nat) (n : Z) (w : World) : World :=
  set_heap (alter (with_current n) r (heap w))
    (set_dom (alter (css_element show_props) h'
               (alter (css_element hide_props) h (dom w))) w).

(** [pres P m]: from a world in [P], [m] ends in [P], whether it returns
    or throws. *)
Definition pres {A} (P : World → Prop) (m : M A) : Prop :=
  ∀ w, P w → P (world_of (m w)).

(** Example pages. *)
Definition page (n : nat) : World :=
  fresh_page [] 300%Q 200%Q (replicate n (100%Q, 400%Q)).

Definition manual : Options :=
  mkOptions None None None (Some false) None.

(** The two-slide example page inside its load callback, between the
    measuring loop and the call of [_init_slides]. *)
Definition measured_data : Data :=
  pushed (dom (page 2)) [0; 1]%nat (extend_defaults 2 no_options).

Definition measured_page : World := set_heap [measured_data] (page 2).

(** ** Stacking order and reveals *)

(** Slide [i] and no other slide has opacity 1; every other slide has
    opacity 0. *)
Definition only_visible (w : World) (i : nat) : Prop :=
  (i < length (dom w))%nat ∧
  ∀ j e, dom w !! j = Some e →
         opacity e = Some (if decide (j = i) then 1%Q else 0%Q).

(** Slide [i] carries the raised stacking order 101 that [_reveal] gives
    the incoming slide; every other slide carries the lowered order 100 or
    has never been given one. *)
Definition raised (w : World) (i : nat) : Prop :=
  ∀ j e, dom w !! j = Some e →
         if decide (j = i) then z_index e = Some 101%Q
         else z_index e = None ∨ z_index e = Some 100%Q.

(** No slide has been given a stacking order. *)
Definition unstacked (w : World) : Prop :=
  ∀ j e, dom w !! j = Some e → z_index e = None.

(** Whether the event [e], arriving in the world [w] of an initialized
    board, calls [_reveal]: [next], [previous] and [jump] always do, and a
    timer firing does when the timer is registered. *)
Definition reveals_now (e : Event) (w : World) : bool :=
  match e with
  | ENext | EPrevious | EJump _ => true
  | ETick t => bool_decide (is_Some (timers w !! t))
  | _ => false
  end.

(** Whether some event of [evs], run from [w], calls [_reveal]. *)
Fixpoint reveals (evs : list Event) (w : World) : bool :=
  match evs with
  | [] => false
  | e :: evs' => reveals_now e w || reveals evs' (world_of (step e w))
  end.

(** The stacking orders on a board whose state is [d]: after a reveal the
    current slide is the raised one; before the first reveal no slide has
    a stacking order and the current slide is slide 0. *)
Definition stacking (b : bool) (w : World) (d : Data) : Prop :=
  if b then raised w (Z.to_nat (current d))
  else unstacked w ∧ current d = 0.

(** ** Pixel sizes *)

(** A size that is a whole number of pixels, at least 0 and below 2^52. On
    such sizes the double-precision subtraction, halving and addition of
    [_init_slides] are exact, so the rational arithmetic of [layout_props]
    computes the very numbers the code computes. *)
Definition whole_pixels (x : Q) : bool :=
  (Qden x =? 1)%positive && (0 <=? Qnum x)%Z && (Qnum x <? 2 ^ 52)%Z.

(** ** Kinds of events *)

(** The commands that go through [_handler]: everything but [init], the
    load event and a timer firing. *)
Definition is_command (e : Event) : bool :=
  match e with
  | EInit _ | ELoad | ETick _ => false
  | _ => true
  end.

(** The three commands that reveal a slide. *)
Definition is_navigation (e : Event) : bool :=
  match e with
  | ENext | EPrevious | EJump _ => true
  | _ => false
  end.

(** What the layout fixes of a slide: its measured box and the four
    position styles. *)
Definition geometry (e : Element)
  : Q * Q * option Q * option Q * option Q * option Q :=
  (el_width e, el_height e,
   el_style e !! "width"%string, el_style e !! "height"%string,
   el_style e !! "left"%string, el_style e !! "top"%string).

(** Whether the load callback starts autoplay, for the options [o] and
    [n] slides. *)
Definition autostarts (o : Options) (n : nat) : bool :=
  default true (o_autostart o) && bool_decide (1 < Z.of_nat n).

(** A page settled on the state [d0] and the slide geometry [g] of its one
    initialization: the load event is over, the heap holds the one state
    object, attached, which differs from [d0] in its current index and
    timer handle at most; it lists every slide of the page; the current
    index is the initial one or an index of [data.slides]; every timer works
    on that object; the geometry of the slides is [g]; and every slide has
    opacity 0, or opacity 1 and is the current one. *)
Definition settled (d0 : Data) (g : list (Q * Q * option Q * option Q *
                                          option Q * option Q))
    (w : World) : Prop :=
  attached w = Some 0%nat ∧ loaded w = true ∧
  (∀ t c, timers w !! t = Some c → tm_data c = 0%nat) ∧
  geometry <$> dom w = g ∧
  slides d0 = seq 0 (length (dom w)) ∧
  ∃ c i, heap w = [with_current c (with_interval i d0)] ∧
         (c = current d0 ∨ is_Some (js_index (slides d0) c)) ∧
         ∀ j e, dom w !! j = Some e →
                opacity e = Some 0%Q ∨
                (opacity e = Some 1%Q ∧ Z.of_nat j = c).

(** The closures bound to the load event by [k] calls of [init] on a
    page with [n] slides that has no state attached yet. *)
Definition load_closures (n k : nat) : list LoadClosure :=
  (λ r, mkLoadClosure (seq 0 n) r) <$> seq 0 k.

(** * Properties *)

(** ** Running the primitives *)

Lemma deref_Some r d w :
  heap w !! r = Some d → deref (Some r) w = Ok (r, d) w.
Proof. intros H. unfold deref. by rewrite H. Qed.

Lemma deref_None w : deref None w = Throw TypeError w.
Proof. reflexivity. Qed.

Lemma state_Some w r d :
  attached w = Some r → heap w !! r = Some d → state w = Some d.
Proof. intros Ha Hh. unfold state. rewrite Ha. exact Hh. Qed.

Lemma pause_eq w r d :
  attached w = Some r → heap w !! r = Some d →
  pause w = Ok tt (match interval d with
                   | Some t => paused r t w
                   | None => w
                   end).
Proof.
  intros Ha Hh. unfold pause, _handler, bind, gets. rewrite Ha.
  rewrite (deref_Some _ _ _ Hh). simpl.
  destruct (interval d); reflexivity.
Qed.

Lemma play_eq w r d :
  attached w = Some r → heap w !! r = Some d →
  play w = Ok tt (match interval d with
                  | Some _ => w
                  | None => playing r (slide_time d) w
                  end).
Proof.
  intros Ha Hh. unfold play, _handler, bind, gets. rewrite Ha.
  rewrite (deref_Some _ _ _ Hh). simpl.
  destruct (interval d); reflexivity.
Qed.

Lemma playpause_eq w r d :
  attached w = Some r → heap w !! r = Some d →
  playpause w = Ok tt (match interval d with
                       | Some t => paused r t w
                       | None => playing r (slide_time d) w
                       end).
Proof.
  intros Ha Hh. unfold playpause, _handler, bind, gets. rewrite Ha.
  rewrite (deref_Some _ _ _ Hh). simpl.
  destruct (interval d) as [t|] eqn:Hi.
  - rewrite (pause_eq _ _ _ Ha Hh), Hi. reflexivity.
  - rewrite (play_eq _ _ _ Ha Hh), Hi. reflexivity.
Qed.

Lemma destroy_eq w r d :
  attached w = Some r → heap w !! r = Some d →
  destroy w = Ok tt (destroyed d w).
Proof.
  intros Ha Hh. unfold destroy, destroyed, _handler, bind, gets. rewrite Ha.
  rewrite (deref_Some _ _ _ Hh). simpl.
  destruct (interval d); reflexivity.
Qed.

Lemma init_attached w r o : attached w = Some r → init o w = Ok tt w.
Proof. intros Ha. unfold init, bind, gets. by rewrite Ha. Qed.

Lemma _reveal_eq w r d h h' n :
  heap w !! r = Some d →
  js_index (slides d) (current d) = Some h →
  js_index (slides d) n = Some h' →
  _reveal r (Some n) w = Ok tt (revealed_world r h h' n w).
Proof.
  intros Hh Hc Hn. unfold _reveal, bind.
  rewrite (deref_Some _ _ _ Hh). simpl. rewrite Hc, Hn. reflexivity.
Qed.

Lemma js_index_seq n k :
  0 ≤ k < Z.of_nat n → js_index (seq 0 n) k = Some (Z.to_nat k).
Proof.
  intros Hk. unfold js_index. rewrite decide_False by lia.
  rewrite lookup_seq_lt by lia. reflexivity.
Qed.

Lemma js_index_lt {A} (l : list A) k :
  0 ≤ k < Z.of_nat (length l) → is_Some (js_index l k).
Proof.
  intros Hk. unfold js_index. rewrite decide_False by lia.
  apply lookup_lt_is_Some. lia.
Qed.

Lemma js_rem_pos a b : 0 ≤ a → 0 < b → js_rem a b = Some (a mod b).
Proof.
  intros Ha Hb. unfold js_rem. rewrite decide_False by lia.
  rewrite Z.rem_mod_nonneg by lia. reflexivity.
Qed.

(** The navigation commands on an attached state whose two array reads are
    defined: pause when a handle is set, then reveal. *)
Lemma navigate_eq target w r d h h' n :
  attached w = Some r → heap w !! r = Some d →
  target d = Some n →
  (∀ t, target (with_interval t d) = target d) →
  js_index (slides d) (current d) = Some h →
  js_index (slides d) n = Some h' →
  navigate target w =
    Ok tt (set_attached (Some r)
             (revealed_world r h h' n
                (match interval d with
                 | Some t => paused r t w
                 | None => w
                 end))).
Proof.
  intros Ha Hh Ht Hti Hc Hn. unfold navigate, _handler, bind, gets.
  rewrite Ha, (deref_Some _ _ _ Hh). simpl.
  destruct (interval d) as [t|] eqn:Hi.
  - rewrite (pause_eq _ _ _ Ha Hh), Hi.
    assert (Hh' : heap (paused r t w) !! r = Some (with_interval None d)).
    { unfold paused. simpl. rewrite list_lookup_alter_eq, Hh. reflexivity. }
    rewrite Hh'. simpl.
    rewrite Hti, Ht.
    rewrite (_reveal_eq _ _ _ h h' n Hh') by assumption. reflexivity.
  - simpl. rewrite Hh. simpl. rewrite Ht.
    rewrite (_reveal_eq _ _ _ h h' n Hh) by assumption. reflexivity.
Qed.

(** ** Properties kept by a computation, exceptions included *)

Lemma pres_bind {A B} P (m : M A) (f : A → M B) :
  pres P m → (∀ a, pres P (f a)) → pres P (bind m f).
Proof.
  intros Hm Hf w Hw. unfold bind. specialize (Hm w Hw).
  destruct (m w) as [a w'|e w']; simpl in *; [by apply Hf | done].
Qed.

Lemma pres_ret {A} P (a : A) : pres P (ret a).
Proof. by intros w Hw. Qed.

Lemma pres_throw {A} P e : pres P (@throw A e).
Proof. by intros w Hw. Qed.

Lemma pres_gets {A} P (f : World → A) : pres P (gets f).
Proof. by intros w Hw. Qed.

Lemma pres_modify P f : (∀ w, P w → P (f w)) → pres P (modify f).
Proof. intros Hf w Hw. by apply Hf. Qed.

Lemma pres_deref P data : pres P (deref data).
Proof.
  intros w Hw. unfold deref. destruct data as [r|]; [|done].
  by destruct (heap w !! r).
Qed.

Lemma pres_for_each {A} P (l : list A) f :
  (∀ x, pres P (f x)) → pres P (for_each l f).
Proof.
  intros Hf. induction l as [|x l IH]; simpl.
  - apply pres_ret.
  - apply pres_bind; [apply Hf | intros _; apply IH].
Qed.

Lemma pres_handler P _fn :
  (∀ r w, P w → P (set_attached (Some r) w)) →
  (∀ data, pres P (_fn data)) → pres P (_handler _fn).
Proof.
  intros Ha Hfn. unfold _handler.
  apply pres_bind; [apply pres_gets | intros data].
  apply pres_bind; [apply Hfn | intros [x|]].
  - apply pres_modify. intros w Hw. by apply Ha.
  - apply pres_ret.
Qed.

Create HintDb pres discriminated.
#[export] Hint Resolve pres_ret pres_throw pres_gets pres_deref : pres.

(** One structural step of a [pres] proof. *)
Ltac pres_step :=
  lazymatch goal with
  | |- pres _ (bind _ _) => apply pres_bind; [|intros ?]
  | |- pres _ (for_each _ _) => apply pres_for_each; intros ?
  | |- pres _ (_handler _) => apply pres_handler; [by auto with pres|intros ?]
  | |- pres _ (modify _) => apply pres_modify; intros ? ?
  | |- pres _ (match ?x with _ => _ end) => destruct x
  | |- pres _ _ => by auto with pres
  end.

(** Properties that do not look at the slides: they survive [_reveal]
    even when it throws half-way. *)
Section Reveal.
Variable P : World → Prop.
Hypothesis P_dom : ∀ d w, P w → P (set_dom d w).
Hypothesis P_current :
  ∀ r n w, P w → P (set_heap (alter (with_current n) r (heap w)) w).

Lemma pres_css x props : pres P (css x props).
Proof.
  destruct x as [h|]; simpl; [|apply pres_throw].
  apply pres_modify. intros w Hw. by apply P_dom.
Qed.

Lemma pres_reveal r x : pres P (_reveal r x).
Proof.
  unfold _reveal. pres_step; [apply pres_deref|].
  pres_step; [apply pres_css|].
  destruct x as [n|]; [|apply pres_throw].
  pres_step; [apply pres_css|].
  unfold assign. apply pres_modify. intros w Hw. by apply P_current.
Qed.
End Reveal.

(** Properties that only look at the attached reference and at the class
    list, and that neither attaching, nor adding a class, nor removing
    ``playing`` destroys: every event keeps them. *)
Section Frame.
Variable P : World → Prop.
Hypothesis P_heap : ∀ h w, P w → P (set_heap h w).
Hypothesis P_dom : ∀ d w, P w → P (set_dom d w).
Hypothesis P_ctrls : ∀ c w, P w → P (set_ctrls c w).
Hypothesis P_onload : ∀ o w, P w → P (set_onload o w).
Hypothesis P_loaded : ∀ b w, P w → P (set_loaded b w).
Hypothesis P_timers : ∀ t n w, P w → P (set_timers t n w).
Hypothesis P_attach : ∀ r w, P w → P (set_attached (Some r) w).
Hypothesis P_add :
  ∀ c w, P w → P (set_classes (add_class c (classes w)) w).
Hypothesis P_remove :
  ∀ w, P w → P (set_classes (remove_class "playing" (classes w)) w).

Local Hint Resolve P_heap P_dom P_ctrls P_onload P_loaded P_timers
  P_attach P_add P_remove : pres.

Lemma frame_assign r f : pres P (assign r f).
Proof. unfold assign. pres_step. auto with pres. Qed.

Lemma frame_css x props : pres P (css x props).
Proof. apply pres_css. auto with pres. Qed.

Lemma frame_addClass c : pres P (addClass c).
Proof. unfold addClass. pres_step. auto with pres. Qed.

Lemma frame_removeClass : pres P (removeClass "playing").
Proof. unfold removeClass. pres_step. auto with pres. Qed.

Lemma frame_setInterval r delay : pres P (setInterval r delay).
Proof. intros w Hw. simpl. auto with pres. Qed.

Lemma frame_clearInterval t : pres P (clearInterval t).
Proof. unfold clearInterval. pres_step. auto with pres. Qed.

Lemma frame_alloc d : pres P (alloc d).
Proof. intros w Hw. simpl. auto with pres. Qed.

Lemma frame_reveal r x : pres P (_reveal r x).
Proof. apply pres_reveal; auto with pres. Qed.

Local Hint Resolve frame_assign frame_css frame_addClass frame_removeClass
  frame_setInterval frame_clearInterval frame_alloc frame_reveal : pres.

Lemma frame_pause : pres P pause.
Proof. unfold pause. repeat pres_step; auto with pres. Qed.

Lemma frame_play : pres P play.
Proof. unfold play. repeat pres_step; auto with pres. Qed.

Local Hint Resolve frame_pause frame_play : pres.

Lemma frame_playpause : pres P playpause.
Proof. unfold playpause. repeat pres_step; auto with pres. Qed.

Lemma frame_navigate target : pres P (navigate target).
Proof. unfold navigate. repeat pres_step; auto with pres. Qed.

Lemma frame_destroy : pres P destroy.
Proof. unfold destroy. repeat pres_step; auto with pres. Qed.

Lemma frame_tick t : pres P (tick t).
Proof. unfold tick. repeat pres_step; auto with pres. Qed.

Lemma frame_init_slides r : pres P (_init_slides r).
Proof.
  unfold _init_slides, layout_slide. repeat pres_step; auto with pres.
Qed.

Local Hint Resolve frame_playpause frame_init_slides : pres.

Lemma frame_on_window_load c : pres P (on_window_load c).
Proof.
  unfold on_window_load, measure, _init_controls.
  repeat pres_step; auto with pres.
Qed.

Lemma frame_init o : pres P (init o).
Proof.
  unfold init, _do_initialize. repeat pres_step; auto with pres.
Qed.

Lemma frame_window_load : pres P window_load.
Proof.
  unfold window_load. pose proof frame_on_window_load.
  repeat pres_step; auto with pres.
Qed.

Lemma frame_step e : pres P (step e).
Proof.
  destruct e; unfold step, next, previous, jump;
    auto using frame_init, frame_navigate, frame_play, frame_pause,
      frame_playpause, frame_destroy, frame_window_load, frame_tick.
Qed.

Lemma frame_run evs w : P w → P (run evs w).
Proof.
  revert w. induction evs as [|e evs IH]; intros w Hw; simpl; [done|].
  apply IH. by apply frame_step.
Qed.
End Frame.

(** ** The window load callback *)

Lemma alter_lookup_insert {A} (f : A → A) (l : list A) i x :
  l !! i = Some x → alter f i l = <[i := f x]> l.
Proof.
  intros H. apply list_eq. intros j.
  destruct (decide (i = j)) as [->|Hne].
  - rewrite list_lookup_alter_eq, H, list_lookup_insert_eq; [done|].
    by eapply lookup_lt_Some.
  - by rewrite list_lookup_alter_ne, list_lookup_insert_ne.
Qed.

Lemma push_loop_eq l r w :
  for_each l (λ h, hw <- measure h;; assign r (push_slide h hw.1 hw.2)) w
  = Ok tt (set_heap (alter (pushed (dom w) l) r (heap w)) w).
Proof.
  revert w. induction l as [|h l IH]; intros w.
  - simpl. unfold ret. f_equal. destruct w; simpl. unfold set_heap; simpl.
    f_equal. symmetry. by apply list_alter_id.
  - simpl. unfold bind at 1 2. unfold measure, gets, assign, modify.
    rewrite IH. simpl. unfold set_heap; simpl. f_equal. f_equal.
    rewrite list_alter_alter_eq. apply list_alter_ext; [|done].
    intros d _. simpl. by destruct (dom w !! h).
Qed.

Lemma pushed_fields els l d :
  let d' := pushed els l d in
  count d' = count d ∧ current d' = current d ∧ interval d' = interval d ∧
  width d' = width d ∧ height d' = height d ∧
  slide_time d' = slide_time d ∧ autostart d' = autostart d ∧
  controls d' = controls d ∧
  slides d' = slides d ++ l ∧
  length (widths d') = (length (widths d) + length l)%nat ∧
  length (heights d') = (length (heights d) + length l)%nat.
Proof.
  revert d. induction l as [|h l IH]; intros d; simpl.
  - rewrite app_nil_r. repeat split; lia.
  - specialize (IH (match els !! h with
                    | Some e => push_slide h (el_height e) (el_width e) d
                    | None => push_slide h 0%Q 0%Q d
                    end)).
    simpl in IH. destruct IH as (?&?&?&?&?&?&?&?&Hs&Hw&Hh).
    unfold pushed in *. simpl.
    destruct (els !! h); simpl in *;
      rewrite ?length_app in *; simpl in *;
      repeat split; try congruence; try lia;
      rewrite Hs, <- app_assoc; reflexivity.
Qed.

Lemma layout_loop_eq d l w :
  (∀ i, i ∈ l → is_Some (slides d !! i)) →
  for_each l (layout_slide d) w = Ok tt (set_dom (laid_out d l (dom w)) w).
Proof.
  revert w. induction l as [|i l IH]; intros w Hl.
  - simpl. unfold ret. by destruct w.
  - simpl. unfold bind at 1. unfold layout_slide at 1.
    destruct (Hl i) as [h Hh]; [left|]. rewrite Hh. simpl.
    rewrite IH by (intros; apply Hl; by right). simpl. reflexivity.
Qed.

Lemma laid_out_length d l els : length (laid_out d l els) = length els.
Proof.
  revert els. induction l as [|i l IH]; intros els; simpl; [done|].
  unfold laid_out in *. rewrite IH. destruct (slides d !! i); [|done].
  apply length_alter.
Qed.

Lemma laid_out_lookup d els k j :
  slides d = seq 0 (length els) → (k ≤ length els)%nat →
  laid_out d (seq 0 k) els !! j =
    if decide (j < k)%nat then css_element (layout_props d j) <$> els !! j
    else els !! j.
Proof.
  intros Hs. induction k as [|k IH]; intros Hk.
  - by unfold laid_out; simpl.
  - rewrite seq_S. unfold laid_out in *. rewrite foldl_app. simpl.
    assert (Hsk : slides d !! k = Some k).
    { rewrite Hs. apply lookup_seq_lt. lia. }
    rewrite Hsk.
    destruct (decide (k = j)) as [->|Hne].
    + rewrite list_lookup_alter_eq, IH by lia.
      repeat case_decide; done || lia.
    + rewrite list_lookup_alter_ne by done. rewrite IH by lia.
      repeat case_decide; done || lia.
Qed.

Lemma _init_slides_eq w r d :
  heap w !! r = Some d →
  let d' := resolve_size (mb_width w) (mb_height w) d in
  _init_slides r w =
    Ok tt (set_dom (laid_out d' (seq 0 (length (slides d'))) (dom w))
             (set_heap (<[r := d']> (heap w)) w)).
Proof.
  intros Hh d'. subst d'. unfold _init_slides, resolve_size, bind.
  rewrite (deref_Some _ _ _ Hh). simpl.
  assert (Hloop : ∀ d0 w0, length (slides d0) = length (slides d) →
            for_each (seq 0 (length (slides d))) (layout_slide d0) w0 =
            Ok tt (set_dom (laid_out d0 (seq 0 (length (slides d))) (dom w0)) w0)).
  { intros d0 w0 Hl. apply layout_loop_eq. intros i Hi.
    apply lookup_lt_is_Some. apply elem_of_seq in Hi. lia. }
  destruct (falsy (width d)) eqn:Hw; simpl.
  - rewrite list_lookup_alter_eq, Hh. simpl.
    destruct (falsy (height d)) eqn:Hht; simpl.
    + rewrite !list_lookup_alter_eq, Hh. simpl. rewrite Hloop by done.
      unfold set_dom, set_heap; simpl. do 2 f_equal.
      by rewrite list_alter_alter_eq, (alter_lookup_insert _ _ _ _ Hh).
    + rewrite !list_lookup_alter_eq, Hh. simpl. rewrite Hloop by done.
      unfold set_dom, set_heap; simpl. do 2 f_equal.
      by rewrite (alter_lookup_insert _ _ _ _ Hh).
  - rewrite Hh. simpl.
    destruct (falsy (height d)) eqn:Hht; simpl.
    + rewrite !list_lookup_alter_eq, Hh. simpl. rewrite Hloop by done.
      unfold set_dom, set_heap; simpl. do 2 f_equal.
      by rewrite (alter_lookup_insert _ _ _ _ Hh).
    + rewrite Hh. simpl. rewrite Hloop by done.
      unfold set_dom, set_heap; simpl. do 2 f_equal.
      by rewrite list_insert_id.
Qed.

Lemma resolve_size_fields cw ch d :
  let d' := resolve_size cw ch d in
  count d' = count d ∧ current d' = current d ∧ interval d' = interval d ∧
  slides d' = slides d ∧ widths d' = widths d ∧ heights d' = heights d ∧
  slide_time d' = slide_time d ∧ autostart d' = autostart d ∧
  controls d' = controls d ∧
  width d' = Some (if falsy (width d) then cw else num (width d)) ∧
  height d' = Some (if falsy (height d) then ch else num (height d)).
Proof.
  unfold resolve_size.
  destruct (falsy (width d)) eqn:Hw; simpl;
    destruct (falsy (height d)) eqn:Hh; simpl; rewrite ?Hw, ?Hh;
    repeat split; try done.
  all: try (destruct (width d); [done | discriminate]).
  all: try (destruct (height d); [done | discriminate]).
Qed.

Lemma bind_Ok {A B} (m : M A) (f : A → M B) w a w' :
  m w = Ok a w' → bind m f w = f a w'.
Proof. intros H. unfold bind. by rewrite H. Qed.

Lemma on_window_load_eq w c d :
  heap w !! lc_data c = Some d →
  on_window_load c w = Ok tt (after_load c d w).
Proof.
  intros Hh. unfold on_window_load, after_load.
  erewrite bind_Ok by apply push_loop_eq.
  set (w1 := set_heap _ w).
  set (d1 := pushed (dom w) (lc_slides c) d).
  assert (Hh1 : heap w1 !! lc_data c = Some d1).
  { subst w1 d1. simpl. by rewrite list_lookup_alter_eq, Hh. }
  erewrite bind_Ok by apply (_init_slides_eq _ _ _ Hh1).
  change (mb_width w1) with (mb_width w).
  change (mb_height w1) with (mb_height w).
  set (d2 := resolve_size _ _ d1).
  assert (Hheap : <[lc_data c := d2]> (heap w1) = <[lc_data c := d2]> (heap w)).
  { subst w1. simpl. rewrite (alter_lookup_insert _ _ _ _ Hh).
    by rewrite list_insert_insert_eq. }
  rewrite Hheap.
  set (w2 := set_dom _ _).
  assert (Hh2 : heap w2 !! lc_data c = Some d2).
  { subst w2. simpl. apply list_lookup_insert_eq. by eapply lookup_lt_Some. }
  erewrite bind_Ok by apply (deref_Some _ _ _ Hh2). simpl.
  destruct (controls d2); unfold bind; simpl.
  - destruct (autostart d2 && bool_decide (1 < count d2)); simpl; [|done].
    erewrite playpause_eq; [|reflexivity|simpl; apply Hh2]. done.
  - destruct (autostart d2 && bool_decide (1 < count d2)); simpl; [|done].
    erewrite playpause_eq; [|reflexivity|simpl; apply Hh2]. done.
Qed.

(** ** Styles written by the layout and by [_reveal] *)

Lemma layout_opacity d i st :
  css_props (layout_props d i) st !! "opacity"%string
  = Some (if decide (i = 0%nat) then 1%Q else 0%Q).
Proof.
  unfold css_props, layout_props. simpl.
  destruct (widths d !! i), (heights d !! i); simpl;
    by rewrite lookup_insert_eq.
Qed.

Lemma layout_z_index d i st :
  css_props (layout_props d i) st !! "z-index"%string = st !! "z-index"%string.
Proof.
  unfold css_props, layout_props. simpl.
  destruct (widths d !! i), (heights d !! i); simpl;
    by rewrite ?lookup_insert_ne by done.
Qed.

Lemma layout_sizes d i wi hi st :
  widths d !! i = Some wi → heights d !! i = Some hi →
  let st' := css_props (layout_props d i) st in
  st' !! "width"%string = Some wi ∧
  st' !! "height"%string = Some hi ∧
  st' !! "left"%string = Some (Math_max 0 ((num (width d) - wi) / 2)%Q) ∧
  st' !! "top"%string = Some (Math_max 0 ((num (height d) - hi) / 2)%Q).
Proof.
  intros Hw Hh. unfold css_props, layout_props. simpl. rewrite Hw, Hh. simpl.
  repeat split;
    repeat (rewrite lookup_insert_ne by done); by rewrite lookup_insert_eq.
Qed.

Lemma hide_style e :
  opacity (css_element hide_props e) = Some 0%Q ∧
  z_index (css_element hide_props e) = Some 100%Q.
Proof.
  unfold opacity, z_index, css_element, css_props, hide_props. simpl.
  split; [by rewrite lookup_insert_eq|].
  rewrite lookup_insert_ne by done. by rewrite lookup_insert_eq.
Qed.

Lemma show_style e :
  opacity (css_element show_props e) = Some 1%Q ∧
  z_index (css_element show_props e) = Some 101%Q.
Proof.
  unfold opacity, z_index, css_element, css_props, show_props. simpl.
  split; [by rewrite lookup_insert_eq|].
  rewrite lookup_insert_ne by done. by rewrite lookup_insert_eq.
Qed.

(** Hiding slide [i] and then showing slide [k] moves the one visible
    slide from [i] to [k]. *)
Lemma reveal_moves (els : list Element) i k :
  (k < length els)%nat →
  (∀ j e, els !! j = Some e → slide_shown i j e) →
  ∀ j e,
    alter (css_element show_props) k (alter (css_element hide_props) i els) !! j
      = Some e →
    slide_shown k j e.
Proof.
  intros Hk Hels j e. unfold slide_shown.
  destruct (decide (j = k)) as [->|Hjk].
  - rewrite list_lookup_alter_eq. intros He.
    destruct (alter (css_element hide_props) i els !! k) as [e0|]; [|done].
    simpl in He. injection He as <-.
    destruct (show_style e0) as [-> ->]. auto.
  - rewrite list_lookup_alter_ne by done.
    destruct (decide (j = i)) as [->|Hji].
    + rewrite list_lookup_alter_eq. intros He.
      destruct (els !! i) as [e0|]; [|done].
      simpl in He. injection He as <-.
      destruct (hide_style e0) as [-> ->]. auto.
    + rewrite list_lookup_alter_ne by done. intros He.
      specialize (Hels j e He). unfold slide_shown in Hels.
      by rewrite decide_False in Hels by done.
Qed.

(** ** One initialization of a fresh page *)

Lemma hasClass_add c l : hasClass c (add_class c l) = true.
Proof.
  unfold add_class. destruct (hasClass c l) eqn:H; [done|].
  unfold hasClass. apply bool_decide_eq_true. apply elem_of_app. right.
  by apply list_elem_of_singleton.
Qed.

Lemma hasClass_add_ne c c' l :
  c ≠ c' → hasClass c (add_class c' l) = hasClass c l.
Proof.
  intros Hne. unfold add_class. destruct (hasClass c' l); [done|].
  unfold hasClass. apply bool_decide_ext. rewrite elem_of_app.
  rewrite list_elem_of_singleton. intuition congruence.
Qed.

Lemma hasClass_remove c l : hasClass c (remove_class c l) = false.
Proof.
  unfold hasClass, remove_class. apply bool_decide_eq_false.
  rewrite list_elem_of_filter. intuition congruence.
Qed.

Lemma init_fresh cls cw ch boxes o :
  let n := length boxes in
  let c := mkLoadClosure (seq 0 n) 0 in
  init o (fresh_page cls cw ch boxes)
  = Ok tt (set_onload [c]
             (set_heap [extend_defaults n o] (fresh_page cls cw ch boxes))).
Proof.
  unfold init, _do_initialize, bind, gets, alloc, modify. simpl.
  by rewrite length_seq, length_map.
Qed.

Lemma exec_init_load cls cw ch boxes o :
  let n := length boxes in
  let c := mkLoadClosure (seq 0 n) 0 in
  exec [EInit o; ELoad] (fresh_page cls cw ch boxes)
  = Ok tt (after_load c (extend_defaults n o)
             (set_loaded true
                (set_onload [c]
                   (set_heap [extend_defaults n o]
                      (fresh_page cls cw ch boxes))))).
Proof.
  intros n c. unfold exec. simpl.
  erewrite bind_Ok by apply init_fresh.
  erewrite bind_Ok; [reflexivity|].
  unfold window_load.
  erewrite bind_Ok by reflexivity. cbn [loaded set_onload set_heap fresh_page].
  erewrite bind_Ok by reflexivity.
  erewrite bind_Ok by reflexivity.
  cbn [for_each onload set_loaded set_onload].
  erewrite bind_Ok by (apply on_window_load_eq; reflexivity).
  reflexivity.
Qed.

Lemma exec_run evs w w' : exec evs w = Ok tt w' → run evs w = w'.
Proof.
  revert w. induction evs as [|e evs IH]; intros w; simpl.
  - by intros [= ->].
  - unfold exec in *. simpl. unfold bind at 1.
    destruct (step e w) as [[] w1|]; [|done]. simpl. apply IH.
Qed.

Lemma exec_app evs1 evs2 w w1 :
  exec evs1 w = Ok tt w1 → exec (evs1 ++ evs2) w = exec evs2 w1.
Proof.
  revert w. induction evs1 as [|e evs IH]; intros w; simpl.
  - by intros [= ->].
  - unfold exec in *. simpl. unfold bind.
    destruct (step e w) as [[] w2|]; [|done]. apply IH.
Qed.

Lemma run_app evs1 evs2 w : run (evs1 ++ evs2) w = run evs2 (run evs1 w).
Proof.
  revert w. induction evs1 as [|e evs IH]; intros w; simpl; [done|apply IH].
Qed.

Lemma loaded_data cw ch els n o :
  let d := resolve_size cw ch (pushed els (seq 0 n) (extend_defaults n o)) in
  count d = Z.of_nat n ∧ current d = 0 ∧ interval d = None ∧
  slides d = seq 0 n.
Proof.
  intros d. subst d.
  destruct (resolve_size_fields cw ch
              (pushed els (seq 0 n) (extend_defaults n o)))
    as (-> & -> & -> & -> & _).
  destruct (pushed_fields els (seq 0 n) (extend_defaults n o))
    as (-> & -> & -> & _ & _ & _ & _ & _ & -> & _).
  done.
Qed.

Lemma laid_out_shows d (els : list Element) :
  slides d = seq 0 (length els) → (0 < length els)%nat →
  (∀ j e, els !! j = Some e → z_index e = None) →
  ∀ j e, laid_out d (seq 0 (length (slides d))) els !! j = Some e →
         slide_shown 0 j e.
Proof.
  intros Hs Hlen Hz j e. rewrite Hs, length_seq.
  rewrite laid_out_lookup by done.
  case_decide as Hj.
  - destruct (els !! j) as [e0|] eqn:He0; [|done]. simpl.
    intros [= <-]. unfold slide_shown, opacity, z_index, css_element.
    cbn [el_style]. rewrite layout_opacity, layout_z_index.
    specialize (Hz j e0 He0). unfold z_index in Hz. rewrite Hz.
    case_decide; auto.
  - intros He. apply lookup_lt_Some in He. lia.
Qed.

Lemma after_load_proj c d w :
  let r := lc_data c in
  let d2 := resolve_size (mb_width w) (mb_height w)
              (pushed (dom w) (lc_slides c) d) in
  let auto := autostart d2 && bool_decide (1 < count d2) in
  let w' := after_load c d w in
  interval d2 = None → (r < length (heap w))%nat →
  attached w' = Some r ∧ loaded w' = loaded w ∧
  dom w' = laid_out d2 (seq 0 (length (slides d2))) (dom w) ∧
  heap w' !! r
    = Some (if auto then with_interval (Some (next_timer w)) d2 else d2) ∧
  timers w'
    = (if auto then <[next_timer w := mkTimer r (slide_time d2)]> (timers w)
       else timers w) ∧
  classes w'
    = add_class "moodboard"
        (if auto then add_class "playing" (classes w) else classes w).
Proof.
  intros r d2 auto w' Hint Hr. subst w'. unfold after_load.
  fold r. fold d2. fold auto. rewrite Hint.
  destruct auto, (controls d2); simpl; repeat split;
    try done; try (by apply list_lookup_insert_eq).
  all: rewrite list_lookup_alter_eq, list_lookup_insert_eq by done; done.
Qed.

Lemma fresh_board cls cw ch boxes o :
  boxes ≠ [] →
  ∃ w d, exec [EInit o; ELoad] (fresh_page cls cw ch boxes) = Ok tt w ∧
         board_at 0 d w ∧ current d = 0.
Proof.
  intros Hne. rewrite exec_init_load.
  set (n := length boxes).
  set (w1 := set_loaded true _).
  set (c := mkLoadClosure (seq 0 n) 0).
  set (d0 := extend_defaults n o).
  pose proof (loaded_data (mb_width w1) (mb_height w1) (dom w1) n o) as Hd.
  pose proof (after_load_proj c d0 w1) as Hp.
  cbv zeta in Hd, Hp.
  change (lc_slides c) with (seq 0 n) in Hp. change (lc_data c) with 0%nat in Hp.
  fold d0 in Hd.
  set (d2 := resolve_size _ _ _) in *.
  destruct Hd as (Hcount & Hcur & Hint & Hsl).
  destruct Hp as (Ha & Hl & Hdom' & Hheap & Htm & _); [done|simpl; lia|].
  assert (Hn : (0 < n)%nat) by (subst n; destruct boxes; [done|simpl; lia]).
  assert (Hdom : length (dom w1) = n) by (subst w1; simpl; apply length_map).
  set (d3 := if autostart d2 && bool_decide (1 < count d2)
             then with_interval (Some (next_timer w1)) d2 else d2) in *.
  assert (Hf : slides d3 = slides d2 ∧ count d3 = count d2 ∧
               current d3 = current d2).
  { subst d3. by destruct (autostart d2 && bool_decide (1 < count d2)). }
  destruct Hf as (Hf1 & Hf2 & Hf3).
  exists (after_load c d0 w1), d3. split; [reflexivity|].
  split; [|congruence].
  unfold board_at. rewrite Ha, Hheap, Hl, Hdom', laid_out_length, Hdom.
  rewrite Hf1, Hf2, Hf3.
  rewrite Hcur, Hcount. repeat split; try done; try lia.
  - intros t tm. rewrite Htm.
    destruct (autostart d2 && bool_decide (1 < count d2)).
    + intros Hlk. apply lookup_insert_Some in Hlk as [[_ <-]|[_ Hlk]]; [done|].
      by subst w1.
    + by subst w1.
  - rewrite Hdom', laid_out_length, Hdom. change (Z.to_nat 0) with 0%nat. lia.
  - rewrite Hdom'. change (Z.to_nat 0) with 0%nat.
    apply laid_out_shows; [by rewrite Hdom | lia |].
    intros j e. subst w1. simpl. rewrite list_lookup_fmap.
    destruct (boxes !! j); [|done]. by intros [= <-].
Qed.

(** ** The timer handle and the running timers *)

Lemma fresh_timer cls cw ch boxes o :
  hasClass "playing" cls = false →
  ∃ w, exec [EInit o; ELoad] (fresh_page cls cw ch boxes) = Ok tt w ∧
       timer_at 0 w ∧ loaded w = true.
Proof.
  intros Hcls. rewrite exec_init_load.
  set (n := length boxes).
  set (w1 := set_loaded true _).
  set (c := mkLoadClosure (seq 0 n) 0).
  set (d0 := extend_defaults n o).
  pose proof (loaded_data (mb_width w1) (mb_height w1) (dom w1) n o) as Hd.
  pose proof (after_load_proj c d0 w1) as Hp.
  cbv zeta in Hd, Hp.
  change (lc_slides c) with (seq 0 n) in Hp. change (lc_data c) with 0%nat in Hp.
  fold d0 in Hd.
  set (d2 := resolve_size _ _ _) in *.
  destruct Hd as (_ & _ & Hint & _).
  destruct Hp as (Ha & Hl & _ & Hheap & Htm & Hc); [done|simpl; lia|].
  eexists. split; [reflexivity|]. split; [|by rewrite Hl].
  split; [done|]. eexists. split; [exact Hheap|].
  unfold marked_playing. rewrite Hc, Htm.
  rewrite hasClass_add_ne by done.
  destruct (autostart d2 && bool_decide (1 < count d2)); simpl.
  - rewrite hasClass_add. split; [done|]. by rewrite insert_empty.
  - rewrite Hint. split; [|done]. by subst w1.
Qed.

Lemma timer_paused r d t w :
  attached w = Some r → heap w !! r = Some d →
  timers w = {[ t := mkTimer r (slide_time d) ]} →
  timer_at r (paused r t w).
Proof.
  intros Ha Hh Ht. split; [done|]. exists (with_interval None d).
  unfold paused. simpl. rewrite list_lookup_alter_eq, Hh. split; [done|].
  unfold marked_playing. simpl. rewrite hasClass_remove.
  split; [done|]. rewrite Ht. apply delete_singleton_eq.
Qed.

Lemma timer_playing r d w :
  attached w = Some r → heap w !! r = Some d → timers w = ∅ →
  timer_at r (playing r (slide_time d) w).
Proof.
  intros Ha Hh Ht. split; [done|].
  exists (with_interval (Some (next_timer w)) d).
  unfold playing. simpl. rewrite list_lookup_alter_eq, Hh. split; [done|].
  unfold marked_playing. simpl. rewrite hasClass_add.
  split; [done|]. by rewrite Ht, insert_empty.
Qed.

Lemma timer_pres_reveal r r' x :
  pres (λ w, timer_at r w ∧ loaded w = true) (_reveal r' x).
Proof.
  apply pres_reveal.
  - intros els w [(Ha & d & Hh & Hm & Ht) Hl]. by repeat split; try eexists.
  - intros r0 n w [(Ha & d & Hh & Hm & Ht) Hl]. split; [|done].
    split; [done|]. simpl.
    destruct (decide (r0 = r)) as [->|Hne].
    + exists (with_current n d). rewrite list_lookup_alter_eq, Hh. done.
    + exists d. by rewrite list_lookup_alter_ne.
Qed.

Lemma timer_reattach r w :
  timer_at r w → timer_at r (set_attached (Some r) w).
Proof. intros (Ha & d & Hh & Hm & Ht). split; [done|]. by exists d. Qed.

Lemma timer_navigate target r w :
  timer_at r w → loaded w = true →
  let w' := world_of (navigate target w) in
  timer_at r w' ∧ loaded w' = true.
Proof.
  intros Hta Hl. pose proof Hta as (Ha & d & Hh & Hm & Ht).
  unfold navigate, _handler, bind, gets. rewrite Ha, (deref_Some _ _ _ Hh).
  simpl.
  assert (Hrest : ∀ w0 d0, timer_at r w0 → loaded w0 = true →
            heap w0 !! r = Some d0 →
            let w' := world_of
              match
                match _reveal r (target d0) w0 with
                | Ok _ w1 => ret (Some r) w1
                | Throw e w1 => Throw e w1
                end
              with
              | Ok a w1 =>
                  match a with
                  | Some x => modify (set_attached (Some x))
                  | None => ret tt
                  end w1
              | Throw e w1 => Throw e w1
              end in
            timer_at r w' ∧ loaded w' = true).
  { intros w0 d0 H0 Hl0 Hh0.
    pose proof (timer_pres_reveal r r (target d0) w0 (conj H0 Hl0)) as Hr.
    destruct (_reveal r (target d0) w0) as [[] w1|e w1]; simpl in *; [|done].
    destruct Hr. split; [by apply timer_reattach|done]. }
  destruct (interval d) as [t|] eqn:Hi.
  - rewrite (pause_eq _ _ _ Ha Hh), Hi.
    assert (Hh' : heap (paused r t w) !! r = Some (with_interval None d)).
    { unfold paused. simpl. rewrite list_lookup_alter_eq, Hh. reflexivity. }
    rewrite Hh'. apply Hrest; [by eapply timer_paused|done|done].
  - simpl. rewrite Hh. by apply Hrest.
Qed.

Lemma timer_tick t r w :
  timer_at r w → loaded w = true →
  let w' := world_of (tick t w) in
  timer_at r w' ∧ loaded w' = true.
Proof.
  intros Hta Hl. pose proof Hta as (Ha & d & Hh & Hm & Ht).
  unfold tick, bind, gets.
  destruct (timers w !! t) as [c|] eqn:Hc; [|done].
  assert (tm_data c = r) as ->.
  { destruct (interval d) as [t0|].
    - rewrite Ht in Hc. apply lookup_singleton_Some in Hc as [_ <-]. done.
    - rewrite Ht in Hc. by rewrite lookup_empty in Hc. }
  rewrite (deref_Some _ _ _ Hh). simpl.
  pose proof (timer_pres_reveal r r (js_rem (current d + 1) (count d)) w
                (conj Hta Hl)) as Hr.
  destruct (_reveal r _ w) as [[] w1|e w1]; simpl in *; [|done].
  destruct Hr. split; [by apply timer_reattach|done].
Qed.

Lemma window_load_loaded w : loaded w = true → window_load w = Ok tt w.
Proof. intros Hl. unfold window_load, bind, gets. by rewrite Hl. Qed.

(** Every event but [destroy] keeps the timers as the handle says. *)
Lemma timer_step e r w :
  not_destroy e = true → timer_at r w → loaded w = true →
  let w' := world_of (step e w) in
  timer_at r w' ∧ loaded w' = true.
Proof.
  intros He Hta Hl. pose proof Hta as (Ha & d & Hh & Hm & Ht).
  destruct e; try discriminate; unfold step.
  - by rewrite (init_attached _ _ _ Ha).
  - by apply timer_navigate.
  - by apply timer_navigate.
  - by apply timer_navigate.
  - rewrite (play_eq _ _ _ Ha Hh). destruct (interval d) eqn:Hi; [done|].
    split; [by apply timer_playing|done].
  - rewrite (pause_eq _ _ _ Ha Hh). destruct (interval d) eqn:Hi; [|done].
    split; [by eapply timer_paused|done].
  - rewrite (playpause_eq _ _ _ Ha Hh). destruct (interval d) eqn:Hi.
    + split; [by eapply timer_paused|done].
    + split; [by apply timer_playing|done].
  - by rewrite (window_load_loaded _ Hl).
  - by apply timer_tick.
Qed.

Lemma timer_run evs r w :
  forallb not_destroy evs = true → timer_at r w → loaded w = true →
  timer_at r (run evs w) ∧ loaded (run evs w) = true.
Proof.
  revert w. induction evs as [|e evs IH]; intros w Hevs Hta Hl; [done|].
  simpl in Hevs. apply andb_true_iff in Hevs as [He Hevs]. simpl.
  destruct (timer_step e r w He Hta Hl). by apply IH.
Qed.

Lemma timer_at_observed r w :
  timer_at r w →
  handle_set w = timer_running w ∧ handle_set w = marked_playing w.
Proof.
  intros (Ha & d & Hh & Hm & Ht). unfold handle_set, timer_running.
  rewrite (state_Some _ _ _ Ha Hh), Hm. split; [|done].
  destruct (interval d) as [t|]; rewrite Ht.
  - rewrite map_size_singleton. by rewrite bool_decide_eq_true_2.
  - rewrite map_size_empty. by rewrite bool_decide_eq_false_2
      by (intros []; done).
Qed.

(** ** The one visible slide *)

Lemma board_revealed r d w n :
  board_at r d w → 0 ≤ n < count d →
  let w1 := revealed_world r (Z.to_nat (current d)) (Z.to_nat n) n w in
  _reveal r (Some n) w = Ok tt w1 ∧
  board_at r (with_current n d) (set_attached (Some r) w1).
Proof.
  intros (Ha & Hh & Hl & Hs & Hc & Hcur & Htm & Hlt & Hsh) Hn w1. split.
  - apply (_reveal_eq _ _ d); [done| |]; rewrite Hs;
      apply js_index_seq; lia.
  - subst w1. unfold board_at, shows, revealed_world. simpl.
    rewrite list_lookup_alter_eq, Hh, !length_alter.
    repeat split; try done; try lia.
    intros j e. by apply reveal_moves; [lia|].
Qed.

Lemma board_paused r d t w :
  board_at r d w → board_at r (with_interval None d) (paused r t w).
Proof.
  intros (Ha & Hh & Hl & Hs & Hc & Hcur & Htm & Hlt & Hsh).
  unfold board_at, paused. simpl. rewrite list_lookup_alter_eq, Hh.
  repeat split; try done; try lia.
  intros t' c Hlk. apply lookup_delete_Some in Hlk as [_ Hlk]. eauto.
Qed.

Lemma board_playing r d w :
  board_at r d w →
  board_at r (with_interval (Some (next_timer w)) d)
           (playing r (slide_time d) w).
Proof.
  intros (Ha & Hh & Hl & Hs & Hc & Hcur & Htm & Hlt & Hsh).
  unfold board_at, playing. simpl. rewrite list_lookup_alter_eq, Hh.
  repeat split; try done; try lia.
  intros t' c Hlk. apply lookup_insert_Some in Hlk as [[_ <-]|[_ Hlk]];
    [done|eauto].
Qed.

Lemma board_destroyed r d w : board_at r d w → board_at r d (destroyed d w).
Proof.
  intros (Ha & Hh & Hl & Hs & Hc & Hcur & Htm & Hlt & Hsh).
  unfold board_at, destroyed.
  destruct (interval d) as [t|]; simpl; repeat split; try done; try lia.
  intros t' c Hlk. apply lookup_delete_Some in Hlk as [_ Hlk]. eauto.
Qed.

Lemma board_navigate target r d w n :
  board_at r d w →
  target d = Some n → (∀ t, target (with_interval t d) = target d) →
  0 ≤ n < count d →
  ∃ w', navigate target w = Ok tt w' ∧ board w'.
Proof.
  intros Hb Ht Hti Hn.
  pose proof Hb as (Ha & Hh & Hl & Hs & Hc & Hcur & Htm & Hsh).
  erewrite (navigate_eq target w r d _ _ n); try done;
    try (rewrite Hs; apply js_index_seq; lia).
  eexists. split; [reflexivity|].
  destruct (interval d) as [t|].
  - pose proof (board_paused r d t w Hb) as Hb'.
    destruct (board_revealed r _ _ n Hb') as [_ Hb'']; [done|].
    eexists _, _. exact Hb''.
  - destruct (board_revealed r _ _ n Hb) as [_ Hb'']; [done|].
    eexists _, _. exact Hb''.
Qed.

Lemma board_tick t r d w :
  board_at r d w → ∃ w', tick t w = Ok tt w' ∧ board w'.
Proof.
  intros Hb. pose proof Hb as (Ha & Hh & Hl & Hs & Hc & Hcur & Htm & Hsh).
  unfold tick, bind, gets.
  destruct (timers w !! t) as [c|] eqn:Hlk.
  - rewrite (Htm _ _ Hlk), (deref_Some _ _ _ Hh). simpl.
    rewrite js_rem_pos by lia.
    destruct (board_revealed r d w ((current d + 1) mod count d) Hb)
      as [-> Hb']; [apply Z.mod_pos_bound; lia|].
    eexists. split; [reflexivity|]. eexists _, _. exact Hb'.
  - exists w. split; [done|]. by exists r, d.
Qed.

(** Every event but a jump to a negative index keeps the board, and none
    of them throws. *)
Lemma board_step e w :
  in_range e = true → board w → ∃ w', step e w = Ok tt w' ∧ board w'.
Proof.
  intros He (r & d & Hb).
  pose proof Hb as (Ha & Hh & Hl & Hs & Hc & Hcur & Htm & Hsh).
  destruct e; unfold step.
  - exists w. split; [by apply (init_attached _ r)|by exists r, d].
  - apply (board_navigate _ r d w ((current d + 1) mod count d)); try done.
    + apply js_rem_pos; lia.
    + apply Z.mod_pos_bound; lia.
  - apply (board_navigate _ r d w ((current d + count d - 1) mod count d));
      try done.
    + apply js_rem_pos; lia.
    + apply Z.mod_pos_bound; lia.
  - simpl in He. apply bool_decide_eq_true in He.
    apply (board_navigate _ r d w (n mod count d)); try done.
    + apply js_rem_pos; lia.
    + apply Z.mod_pos_bound; lia.
  - rewrite (play_eq _ _ _ Ha Hh). eexists. split; [reflexivity|].
    destruct (interval d); [by exists r, d|].
    eexists _, _. by apply board_playing.
  - rewrite (pause_eq _ _ _ Ha Hh). eexists. split; [reflexivity|].
    destruct (interval d); [|by exists r, d].
    eexists _, _. by apply board_paused.
  - rewrite (playpause_eq _ _ _ Ha Hh). eexists. split; [reflexivity|].
    destruct (interval d).
    + eexists _, _. by apply board_paused.
    + eexists _, _. by apply board_playing.
  - rewrite (destroy_eq _ _ _ Ha Hh). eexists. split; [reflexivity|].
    eexists _, _. by apply board_destroyed.
  - rewrite (window_load_loaded _ Hl). exists w. split; [done|by exists r, d].
  - by apply (board_tick _ r d).
Qed.

Lemma board_exec evs w :
  forallb in_range evs = true → board w →
  ∃ w', exec evs w = Ok tt w' ∧ board w'.
Proof.
  revert w. induction evs as [|e evs IH]; intros w Hevs Hb.
  - by exists w.
  - simpl in Hevs. apply andb_true_iff in Hevs as [He Hevs].
    destruct (board_step e w He Hb) as (w1 & Hstep & Hb1).
    destruct (IH w1 Hevs Hb1) as (w2 & Hexec & Hb2).
    exists w2. split; [|done].
    unfold exec in *. simpl. by erewrite bind_Ok by exact Hstep.
Qed.

(** ** Navigation and the current index *)

(** A navigation command whose target [n] is in range returns, and leaves
    [n] as the current index of the same attached object. *)
Lemma navigate_current target w r d n :
  attached w = Some r → heap w !! r = Some d →
  count d = Z.of_nat (length (slides d)) →
  0 ≤ current d < count d →
  target d = Some n → (∀ t, target (with_interval t d) = target d) →
  0 ≤ n < count d →
  ∃ w' d', navigate target w = Ok tt w' ∧
           attached w' = Some r ∧ heap w' !! r = Some d' ∧
           current d' = n ∧ count d' = count d ∧ slides d' = slides d ∧
           interval d' = None.
Proof.
  intros Ha Hh Hc Hcur Ht Hti Hn.
  destruct (js_index_lt (slides d) (current d)) as [h Hh1]; [lia|].
  destruct (js_index_lt (slides d) n) as [h' Hh2]; [lia|].
  rewrite (navigate_eq target w r d h h' n) by done.
  destruct (interval d) as [t|] eqn:Hi.
  - eexists _, (with_current n (with_interval None d)).
    split; [reflexivity|]. unfold revealed_world, paused. simpl.
    rewrite !list_lookup_alter_eq, Hh. done.
  - eexists _, (with_current n d).
    split; [reflexivity|]. unfold revealed_world. simpl.
    rewrite !list_lookup_alter_eq, Hh. done.
Qed.

Lemma next_previous_index c n :
  0 ≤ c < n → ((c + 1) mod n + n - 1) mod n = c.
Proof.
  intros Hc. destruct (decide (c + 1 = n)) as [He|Hne].
  - rewrite He, Z.mod_same by lia. rewrite Z.mod_small by lia. lia.
  - rewrite (Z.mod_small (c + 1)) by lia.
    replace (c + 1 + n - 1) with (c + 1 * n) by lia.
    rewrite Z.mod_add by lia. apply Z.mod_small. lia.
Qed.

(** C7: on an initialized slideshow with at least one slide and the current
    index in range, [next] followed by [previous] returns without error and
    leaves the current index at its original value. *)
Theorem next_then_previous (w : World) (r : ref) (d : Data) :
  attached w = Some r → heap w !! r = Some d →
  count d = Z.of_nat (length (slides d)) →
  1 ≤ count d → 0 ≤ current d < count d →
  ∃ w' d', exec [ENext; EPrevious] w = Ok tt w' ∧
           state w' = Some d' ∧ current d' = current d.
Proof.
  intros Ha Hh Hc Hpos Hcur.
  destruct (navigate_current (λ d, js_rem (current d + 1) (count d))
              w r d ((current d + 1) mod count d))
    as (w1 & d1 & Hnext & Ha1 & Hh1 & Hcur1 & Hc1 & Hs1 & _); try done.
  { apply js_rem_pos; lia. }
  { apply Z.mod_pos_bound; lia. }
  destruct (navigate_current (λ d, js_rem (current d + count d - 1) (count d))
              w1 r d1 (current d))
    as (w2 & d2 & Hprev & Ha2 & Hh2 & Hcur2 & _); try done.
  { congruence. }
  { rewrite Hcur1, Hc1. apply Z.mod_pos_bound. lia. }
  { rewrite js_rem_pos.
    - rewrite Hcur1, Hc1. f_equal. apply next_previous_index. lia.
    - rewrite Hcur1, Hc1.
      pose proof (Z.mod_pos_bound (current d + 1) (count d)). lia.
    - lia. }
  { lia. }
  exists w2, d2. split; [|split; [by apply (state_Some _ r)|done]].
  unfold exec. simpl. unfold next, previous.
  erewrite bind_Ok by exact Hnext. erewrite bind_Ok by exact Hprev. done.
Qed.

Lemma next_then_previous_witness :
  ∃ w' d', exec [ENext; EPrevious] (run [EInit no_options; ELoad] (page 3))
             = Ok tt w' ∧
           state w' = Some d' ∧ current d' = 0.
Proof.
  apply (next_then_previous (run [EInit no_options; ELoad] (page 3)) 0%nat
           (mkData 3 0 (Some 1%positive) [0; 1; 2]%nat
                   [100; 100; 100]%Q [400; 400; 400]%Q
                   (Some 300%Q) (Some 200%Q) 2500%Q true true)).
  - reflexivity.
  - reflexivity.
  - reflexivity.
  - simpl. lia.
  - simpl. lia.
Defined.

(** ** Jumping to a negative index *)

(** [jump] with a non-negative index reveals [n mod count]. *)
Lemma jump_nonneg r d w n :
  board_at r d w → 0 ≤ n →
  ∃ w' d', jump n w = Ok tt w' ∧ state w' = Some d' ∧
           current d' = n mod count d ∧
           shows w' (Z.to_nat (n mod count d)).
Proof.
  intros Hb Hn. pose proof Hb as (Ha & Hh & Hl & Hs & Hc & Hcur & Htm & Hsh).
  assert (Hm : 0 ≤ n mod count d < count d) by (apply Z.mod_pos_bound; lia).
  unfold jump.
  erewrite (navigate_eq _ w r d _ _ (n mod count d)); try done;
    try (rewrite Hs; apply js_index_seq; lia);
    try (apply js_rem_pos; lia).
  destruct (interval d) as [t|].
  - pose proof (board_paused r d t w Hb) as Hb'.
    destruct (board_revealed r _ _ (n mod count d) Hb')
      as [_ (Ha' & Hh' & _ & _ & _ & _ & _ & Hsh')]; [done|].
    eexists _, _. split; [reflexivity|].
    split; [by apply (state_Some _ r)|]. done.
  - destruct (board_revealed r _ _ (n mod count d) Hb)
      as [_ (Ha' & Hh' & _ & _ & _ & _ & _ & Hsh')]; [done|].
    eexists _, _. split; [reflexivity|].
    split; [by apply (state_Some _ r)|]. done.
Qed.

(** [jump] with an index whose remainder is negative hides the current
    slide and throws; the current index is not updated and no slide is left
    with opacity 1. *)
Lemma jump_negative r d w n :
  board_at r d w → Z.rem n (count d) < 0 →
  ∃ w' d', jump n w = Throw TypeError w' ∧ state w' = Some d' ∧
           current d' = current d ∧
           ∀ j e, dom w' !! j = Some e → opacity e = Some 0%Q.
Proof.
  intros Hb Hn.
  assert (Hthrow : ∀ d0 w0, board_at r d0 w0 → count d0 = count d →
            ∃ w', _reveal r (js_rem n (count d0)) w0 = Throw TypeError w' ∧
                  attached w' = Some r ∧ heap w' = heap w0 ∧
                  ∀ j e, dom w' !! j = Some e → opacity e = Some 0%Q).
  { intros d0 w0 (Ha0 & Hh0 & _ & Hs0 & Hc0 & Hcur0 & _ & Hlt0 & Hsh0) Hcc.
    unfold _reveal, bind. rewrite (deref_Some _ _ _ Hh0). simpl.
    rewrite Hs0, js_index_seq by lia. simpl.
    unfold js_rem. rewrite decide_False by lia. rewrite Hcc.
    unfold js_index at 1. rewrite decide_True by lia. simpl.
    eexists. split; [reflexivity|]. simpl. repeat split; try done.
    intros j e. destruct (decide (j = Z.to_nat (current d0))) as [->|Hne].
    - rewrite list_lookup_alter_eq.
      destruct (dom w0 !! Z.to_nat (current d0)) as [e0|]; [|done].
      intros [= <-]. apply hide_style.
    - rewrite list_lookup_alter_ne by done. intros He.
      specialize (Hsh0 j e He). unfold slide_shown in Hsh0.
      rewrite decide_False in Hsh0 by done. apply Hsh0. }
  pose proof Hb as (Ha & Hh & Hl & Hs & Hc & Hcur & Htm & Hsh).
  unfold jump, navigate, _handler, bind, gets.
  rewrite Ha, (deref_Some _ _ _ Hh). simpl.
  destruct (interval d) as [t|] eqn:Hi.
  - rewrite (pause_eq _ _ _ Ha Hh), Hi.
    pose proof (board_paused r d t w Hb) as Hb'.
    pose proof Hb' as (_ & Hh' & _).
    rewrite Hh'. simpl.
    destruct (Hthrow _ _ Hb' eq_refl) as (w' & Hrev & Ha' & Hheap & Hop).
    simpl in Hrev. rewrite Hrev.
    exists w', (with_interval None d). split; [reflexivity|].
    split; [|done]. unfold state. rewrite Ha', Hheap. exact Hh'.
  - simpl. rewrite Hh. simpl.
    destruct (Hthrow _ _ Hb eq_refl) as (w' & Hrev & Ha' & Hheap & Hop).
    rewrite Hrev.
    exists w', d. split; [reflexivity|].
    split; [|done]. unfold state. rewrite Ha', Hheap. exact Hh.
Qed.

(** C1: on a five-slide board showing slide 0, [jump(-1)] computes
    [-1 % 5 = -1], hides the current slide, and throws a [TypeError] on the
    undefined [data.slides[-1]]: the current index stays 0, slide 4 keeps
    opacity 0 and no slide is left revealed. *)
Theorem jump_minus_one_five_slides :
  let w := run [EInit manual; ELoad] (page 5) in
  js_rem (-1) 5 = Some (-1) ∧
  ∃ w', jump (-1) w = Throw TypeError w' ∧
        current <$> state w' = Some 0 ∧
        opacity <$> dom w' !! 0%nat = Some (Some 0%Q) ∧
        opacity <$> dom w' !! 4%nat = Some (Some 0%Q) ∧
        exactly_one_revealed w' = false.
Proof.
  split; [reflexivity|]. eexists. split; [vm_compute; reflexivity|].
  repeat split; vm_compute; reflexivity.
Qed.

(** ** Destroying *)

(** C2: [destroy] returns [null], which [_handler] does not store, so the
    state object stays attached and a following [init] does nothing. *)
Theorem destroy_keeps_state_attached (w : World) (d : Data) (o : Options) :
  state w = Some d →
  ∃ w', destroy w = Ok tt w' ∧
        attached w' = attached w ∧ state w' = Some d ∧
        init o w' = Ok tt w'.
Proof.
  unfold state. intros Hst.
  destruct (attached w) as [r|] eqn:Ha; [|done]. simpl in Hst.
  rewrite (destroy_eq _ _ _ Ha Hst). eexists. split; [reflexivity|].
  assert (Ha' : attached (destroyed d w) = Some r).
  { unfold destroyed. by destruct (interval d). }
  assert (Hh' : heap (destroyed d w) = heap w).
  { unfold destroyed. by destruct (interval d). }
  rewrite Ha', Hh'. repeat split; [done|]. by apply (init_attached _ r).
Qed.

Lemma destroy_keeps_state_attached_witness :
  ∃ w', destroy (run [EInit no_options; ELoad] (page 2)) = Ok tt w' ∧
        attached w' = attached (run [EInit no_options; ELoad] (page 2)) ∧
        state w' = Some (mkData 2 0 (Some 1%positive) [0; 1]%nat
                           [100; 100]%Q [400; 400]%Q
                           (Some 300%Q) (Some 200%Q) 2500%Q true true) ∧
        init no_options w' = Ok tt w'.
Proof.
  apply (destroy_keeps_state_attached
           (run [EInit no_options; ELoad] (page 2))).
  reflexivity.
Defined.

(** C3 as stated fails: [destroy] on a container without attached state
    does not return normally. *)
Lemma destroy_uninitialized_not_noop : destroy (page 3) ≠ Ok tt (page 3).
Proof. discriminate. Qed.

(** C3, amended: [destroy] on a container without attached state changes
    nothing, but it throws a [TypeError] (reading [interval] of the missing
    state) instead of returning. *)
Theorem destroy_uninitialized_throws (w : World) :
  attached w = None → destroy w = Throw TypeError w.
Proof.
  intros Ha. unfold destroy, _handler, bind, gets. by rewrite Ha.
Qed.

Lemma destroy_uninitialized_throws_witness :
  destroy (page 3) = Throw TypeError (page 3).
Proof. apply (destroy_uninitialized_throws (page 3)). reflexivity. Defined.

(** ** Initializing twice *)

(** C4 as stated fails: a second [init] before the window load event is
    not a no-op; it builds a second state object and binds a second load
    callback, and both callbacks run (two [.controls] blocks, two timers). *)
Lemma second_init_before_load :
  let w1 := run [EInit no_options] (page 2) in
  let w := run [EInit no_options; EInit no_options; ELoad] (page 2) in
  init no_options w1 ≠ Ok tt w1 ∧
  length (heap w) = 2%nat ∧ length (ctrls w) = 2%nat ∧
  size (timers w) = 2%nat.
Proof.
  split; [|by vm_compute].
  intros H. apply (f_equal (λ r, length (onload (world_of r)))) in H.
  vm_compute in H. discriminate.
Qed.

Lemma after_load_attached c d w : attached (after_load c d w) = Some (lc_data c).
Proof.
  unfold after_load.
  destruct (autostart _ && bool_decide _); [|done].
  by destruct (interval _).
Qed.

Lemma attached_run evs w : is_Some (attached w) → is_Some (attached (run evs w)).
Proof.
  apply (frame_run (λ w, is_Some (attached w))); done.
Qed.

(** An [init] call on a container without attached state appends a data
    object to the heap and a load callback to the pending ones. *)
Lemma init_detached o w :
  attached w = None →
  init o w
  = Ok tt (set_onload
             (onload w ++ [mkLoadClosure (seq 0 (length (dom w)))
                                         (length (heap w))])
             (set_heap (heap w ++ [extend_defaults (length (dom w)) o]) w)).
Proof.
  intros Ha. unfold init, _do_initialize, bind, gets, alloc, modify.
  rewrite Ha. simpl. by rewrite length_seq.
Qed.

(** After one or more [init] calls before the load event nothing is
    attached, and the first pending load callback refers to a data object
    on the heap. *)
Lemma inits_pending o os w :
  attached w = None → loaded w = false → onload w = [] →
  let w' := run (EInit <$> (o :: os)) w in
  attached w' = None ∧ loaded w' = false ∧
  ∃ c rest d, onload w' = c :: rest ∧ heap w' !! lc_data c = Some d.
Proof.
  intros Ha Hl Ho. simpl. rewrite (init_detached o w Ha). simpl.
  set (w1 := set_onload _ _).
  assert (H1 : attached w1 = None ∧ loaded w1 = false ∧
               ∃ c rest d, onload w1 = c :: rest ∧
                           heap w1 !! lc_data c = Some d).
  { subst w1. simpl. rewrite Ho. repeat split; try done.
    eexists _, _, _. split; [reflexivity|]. simpl.
    by rewrite lookup_app_r, Nat.sub_diag by lia. }
  clearbody w1. clear - H1. revert w1 H1.
  induction os as [|o' os IH]; intros w1 H1; [exact H1|].
  simpl. apply IH.
  destruct H1 as (Ha & Hl & c & rest & d & Ho & Hh).
  rewrite (init_detached o' w1 Ha). simpl. rewrite Ho.
  repeat split; try done.
  exists c, (rest ++ [mkLoadClosure (seq 0 (length (dom w1)))
                                    (length (heap w1))]), d.
  split; [done|]. rewrite lookup_app_l; [done|]. by eapply lookup_lt_Some.
Qed.

(** The load event attaches a state as soon as its first callback has a
    data object to work on; the callbacks after it keep one attached. *)
Lemma load_attaches w c rest d :
  loaded w = false → onload w = c :: rest →
  heap w !! lc_data c = Some d →
  is_Some (attached (world_of (window_load w))).
Proof.
  intros Hl Ho Hh. unfold window_load, bind at 1, gets. rewrite Hl.
  erewrite bind_Ok by reflexivity.
  erewrite bind_Ok by reflexivity.
  cbn [onload set_loaded]. rewrite Ho. cbn [for_each].
  erewrite bind_Ok by (apply (on_window_load_eq _ _ d); exact Hh).
  apply (pres_for_each (λ w, is_Some (attached w))).
  - intros c'. by apply frame_on_window_load.
  - rewrite after_load_attached. by eexists.
Qed.

(** C4, amended: once the window load event has run the load callbacks of
    one or more [init] calls, a state is attached, and as long as [destroy]
    is not called every later [init] is a no-op for the container: it
    returns and leaves the whole page, heap and pending callbacks included,
    as it was, whatever other events came in between. *)
Theorem init_noop_once_loaded cls cw ch boxes o os evs o' :
  forallb not_destroy evs = true →
  let w := run ((EInit <$> (o :: os)) ++ ELoad :: evs)
               (fresh_page cls cw ch boxes) in
  init o' w = Ok tt w.
Proof.
  intros _ w.
  assert (Hw : is_Some (attached w)).
  { subst w. rewrite run_app.
    destruct (inits_pending o os (fresh_page cls cw ch boxes))
      as (_ & Hl & c & rest & d & Ho & Hh); try done.
    cbn [run step]. apply attached_run.
    by apply (load_attaches _ c rest d). }
  destruct Hw as [r Hr]. by apply (init_attached _ r).
Qed.

Lemma init_noop_once_loaded_witness :
  init no_options
       (run [EInit no_options; EInit manual; ELoad; ENext; EPause] (page 2))
  = Ok tt (run [EInit no_options; EInit manual; ELoad; ENext; EPause]
               (page 2)).
Proof.
  apply (init_noop_once_loaded [] 300%Q 200%Q (replicate 2 (100%Q, 400%Q))
           no_options [manual] [ENext; EPause] no_options).
  reflexivity.
Defined.

(** ** Pausing *)

(** C8: [pause] on an initialized slideshow whose timer handle is not set
    returns without error and leaves the whole world unchanged. *)
Theorem pause_not_playing_noop (w : World) (d : Data) :
  state w = Some d → interval d = None → pause w = Ok tt w.
Proof.
  unfold state. intros Hst Hi.
  destruct (attached w) as [r|] eqn:Ha; [|done]. simpl in Hst.
  by rewrite (pause_eq _ _ _ Ha Hst), Hi.
Qed.

Lemma pause_not_playing_noop_witness :
  pause (run [EInit manual; ELoad] (page 3))
  = Ok tt (run [EInit manual; ELoad] (page 3)).
Proof.
  apply (pause_not_playing_noop (run [EInit manual; ELoad] (page 3))
           (mkData 3 0 None [0; 1; 2]%nat
                   [100; 100; 100]%Q [400; 400; 400]%Q
                   (Some 300%Q) (Some 200%Q) 2500%Q false true)).
  - reflexivity.
  - reflexivity.
Defined.

(** ** The marker class *)

Lemma hasClass_remove_ne c c' l :
  c ≠ c' → hasClass c (remove_class c' l) = hasClass c l.
Proof.
  intros Hne. unfold hasClass, remove_class. apply bool_decide_ext.
  rewrite list_elem_of_filter. intuition congruence.
Qed.

Lemma marker_run evs w :
  hasClass "moodboard" (classes w) = true →
  hasClass "moodboard" (classes (run evs w)) = true.
Proof.
  apply (frame_run (λ w, hasClass "moodboard" (classes w) = true)); try done.
  - intros c w' Hw'. simpl.
    destruct (decide (c = "moodboard"%string)) as [->|Hne].
    + apply hasClass_add.
    + by rewrite hasClass_add_ne.
  - intros w' Hw'. simpl. by rewrite hasClass_remove_ne.
Qed.

(** C10: on a container with attached state and the ``moodboard`` class,
    [destroy] drops the ``playing`` class and the controls blocks and
    nothing else of the markup (every other class, ``moodboard`` included,
    the slides, the heap and the attached reference stay); and no sequence
    of events ever removes the ``moodboard`` class. *)
Theorem marker_class_survives (w : World) (d : Data) :
  state w = Some d → hasClass "moodboard" (classes w) = true →
  (∃ w', destroy w = Ok tt w' ∧
         hasClass "moodboard" (classes w') = true ∧
         hasClass "playing" (classes w') = false ∧
         (∀ c, c ≠ "playing"%string →
               hasClass c (classes w') = hasClass c (classes w)) ∧
         ctrls w' = [] ∧
         dom w' = dom w ∧ heap w' = heap w ∧ attached w' = attached w) ∧
  ∀ evs, hasClass "moodboard" (classes (run evs w)) = true.
Proof.
  unfold state. intros Hst Hm. split; [|intros evs; by apply marker_run].
  destruct (attached w) as [r|] eqn:Ha; [|done]. simpl in Hst.
  rewrite (destroy_eq _ _ _ Ha Hst). eexists. split; [reflexivity|].
  unfold destroyed. destruct (interval d); simpl;
    rewrite hasClass_remove, hasClass_remove_ne, Hm by done;
    repeat split; try done; intros c Hc; by apply hasClass_remove_ne.
Qed.

Lemma marker_class_survives_witness :
  hasClass "moodboard"
    (classes (run [EDestroy; ENext; EDestroy]
                (run [EInit no_options; ELoad] (page 2)))) = true.
Proof.
  apply (marker_class_survives
           (run [EInit no_options; ELoad] (page 2))
           (mkData 2 0 (Some 1%positive) [0; 1]%nat
                   [100; 100]%Q [400; 400]%Q
                   (Some 300%Q) (Some 200%Q) 2500%Q true true)).
  - reflexivity.
  - reflexivity.
Defined.

(** ** Exactly one visible slide *)

(** C5 as stated fails: a board without slides reveals none; right after
    the layout the visible slide has opacity 1 but no raised stacking order;
    and after two [init] calls before the load event, the timer of the first
    state object and a jump on the second leave two slides revealed. *)
Lemma not_exactly_one_revealed :
  exactly_one_revealed (run [EInit no_options; ELoad] (page 0)) = false ∧
  exactly_one_revealed (run [EInit no_options; ELoad] (page 3)) = false ∧
  let w := run [EInit no_options; EInit no_options; ELoad;
                EJump 2; ETick 1%positive] (page 3) in
  is_revealed <$> dom w !! 1%nat = Some true ∧
  is_revealed <$> dom w !! 2%nat = Some true ∧
  exactly_one_revealed w = false.
Proof. by vm_compute. Qed.

(** The layout never writes a stacking order. *)
Lemma laid_out_unstacked d l (els : list Element) :
  (∀ j e, els !! j = Some e → z_index e = None) →
  ∀ j e, laid_out d l els !! j = Some e → z_index e = None.
Proof.
  unfold laid_out. revert els.
  induction l as [|i l IH]; intros els Hels; [exact Hels|].
  simpl. apply IH.
  destruct (slides d !! i) as [h|]; [|exact Hels].
  intros j e. destruct (decide (j = h)) as [->|Hne].
  - rewrite list_lookup_alter_eq.
    destruct (els !! h) as [e0|] eqn:He0; [|done].
    simpl. intros [= <-]. unfold z_index, css_element. cbn [el_style].
    rewrite layout_z_index. exact (Hels h e0 He0).
  - rewrite list_lookup_alter_ne by done. apply Hels.
Qed.

Lemma after_load_laid_out c d w :
  ∃ d', dom (after_load c d w) = laid_out d' (seq 0 (length (slides d'))) (dom w).
Proof.
  eexists. unfold after_load.
  destruct (controls _), (autostart _ && bool_decide _); simpl;
    try destruct (interval _); reflexivity.
Qed.

Lemma fresh_unstacked cls cw ch boxes o w :
  exec [EInit o; ELoad] (fresh_page cls cw ch boxes) = Ok tt w → unstacked w.
Proof.
  rewrite exec_init_load. intros [= <-]. unfold unstacked.
  destruct (after_load_laid_out
              (mkLoadClosure (seq 0 (length boxes)) 0)
              (extend_defaults (length boxes) o)
              (set_loaded true
                 (set_onload [mkLoadClosure (seq 0 (length boxes)) 0]
                    (set_heap [extend_defaults (length boxes) o]
                       (fresh_page cls cw ch boxes))))) as [d' ->].
  apply laid_out_unstacked. simpl. intros j e. rewrite list_lookup_fmap.
  destruct (boxes !! j); [|done]. by intros [= <-].
Qed.

(** Hiding slide [i] and then showing slide [k] leaves [k] as the raised
    slide, whether [i] was raised before or no slide was. *)
Lemma raise_moves (els : list Element) i k :
  (∀ j e, els !! j = Some e → j ≠ i →
          z_index e = None ∨ z_index e = Some 100%Q) →
  ∀ j e,
    alter (css_element show_props) k (alter (css_element hide_props) i els) !! j
      = Some e →
    if decide (j = k) then z_index e = Some 101%Q
    else z_index e = None ∨ z_index e = Some 100%Q.
Proof.
  intros Hels j e.
  destruct (decide (j = k)) as [->|Hjk].
  - rewrite list_lookup_alter_eq. intros He.
    destruct (alter (css_element hide_props) i els !! k) as [e0|]; [|done].
    simpl in He. injection He as <-.
    by destruct (show_style e0) as [_ ->].
  - rewrite list_lookup_alter_ne by done.
    destruct (decide (j = i)) as [->|Hji].
    + rewrite list_lookup_alter_eq. intros He.
      destruct (els !! i) as [e0|]; [|done].
      simpl in He. injection He as <-.
      destruct (hide_style e0) as [_ ->]. auto.
    + rewrite list_lookup_alter_ne by done. intros He. by apply (Hels j e).
Qed.

Lemma stacking_lowered b w d :
  stacking b w d →
  ∀ j e, dom w !! j = Some e → j ≠ Z.to_nat (current d) →
         z_index e = None ∨ z_index e = Some 100%Q.
Proof.
  intros Hst j e He Hj. destruct b; simpl in Hst.
  - specialize (Hst j e He). by rewrite decide_False in Hst.
  - destruct Hst as [Hu _]. left. exact (Hu j e He).
Qed.

(** [_reveal] raises the slide it shows. *)
Lemma stacking_revealed b r d w n :
  stacking b w d →
  stacking true
    (set_attached (Some r)
       (revealed_world r (Z.to_nat (current d)) (Z.to_nat n) n w))
    (with_current n d).
Proof.
  intros Hst. unfold stacking, raised, revealed_world. simpl.
  apply raise_moves. by apply (stacking_lowered b).
Qed.

Lemma stacking_paused b r t w d :
  stacking b w d → stacking b (paused r t w) (with_interval None d).
Proof. by destruct b. Qed.

Lemma stacking_playing b r q t w d :
  stacking b w d → stacking b (playing r q w) (with_interval t d).
Proof. by destruct b. Qed.

Lemma stacking_navigate b target r d w n :
  board_at r d w → stacking b w d →
  target d = Some n → (∀ t, target (with_interval t d) = target d) →
  0 ≤ n < count d →
  ∃ w' d', navigate target w = Ok tt w' ∧ board_at r d' w' ∧
           stacking true w' d'.
Proof.
  intros Hb Hst Ht Hti Hn.
  pose proof Hb as (Ha & Hh & Hl & Hs & Hc & Hcur & Htm & Hsh).
  erewrite (navigate_eq target w r d _ _ n); try done;
    try (rewrite Hs; apply js_index_seq; lia).
  destruct (interval d) as [t|].
  - pose proof (board_paused r d t w Hb) as Hb'.
    destruct (board_revealed r _ _ n Hb') as [_ Hb'']; [done|].
    eexists _, _. split; [reflexivity|]. split; [exact Hb''|].
    apply (stacking_revealed b r (with_interval None d)).
    by apply stacking_paused.
  - destruct (board_revealed r _ _ n Hb) as [_ Hb'']; [done|].
    eexists _, _. split; [reflexivity|]. split; [exact Hb''|].
    by apply (stacking_revealed b).
Qed.

Lemma stacking_tick b t r d w :
  board_at r d w → stacking b w d →
  ∃ w' d', tick t w = Ok tt w' ∧ board_at r d' w' ∧
           stacking (b || bool_decide (is_Some (timers w !! t))) w' d'.
Proof.
  intros Hb Hst. pose proof Hb as (Ha & Hh & Hl & Hs & Hc & Hcur & Htm & Hsh).
  unfold tick, bind, gets.
  destruct (timers w !! t) as [c|] eqn:Hlk.
  - rewrite (Htm _ _ Hlk), (deref_Some _ _ _ Hh). simpl.
    rewrite js_rem_pos by lia.
    destruct (board_revealed r d w ((current d + 1) mod count d) Hb)
      as [-> Hb']; [apply Z.mod_pos_bound; lia|].
    eexists _, _. split; [reflexivity|]. split; [exact Hb'|].
    replace (b || _) with true by (symmetry; apply orb_true_r).
    by apply (stacking_revealed b).
  - exists w, d. split; [done|]. split; [done|].
    replace (b || _) with b by (symmetry; apply orb_false_r). done.
Qed.

(** Every event but [destroy] and a jump to a negative index returns,
    keeps the board, and raises the current slide when it reveals. *)
Lemma stacking_step b e r d w :
  in_range e = true → not_destroy e = true →
  board_at r d w → stacking b w d →
  ∃ w' d', step e w = Ok tt w' ∧ board_at r d' w' ∧
           stacking (b || reveals_now e w) w' d'.
Proof.
  intros He Hnd Hb Hst.
  pose proof Hb as (Ha & Hh & Hl & Hs & Hc & Hcur & Htm & Hsh).
  destruct e; try discriminate; unfold step, reveals_now;
    rewrite ?orb_true_r, ?orb_false_r.
  - exists w, d. split; [by apply (init_attached _ r)|done].
  - apply (stacking_navigate b _ r d w ((current d + 1) mod count d));
      try done.
    + apply js_rem_pos; lia.
    + apply Z.mod_pos_bound; lia.
  - apply (stacking_navigate b _ r d w
             ((current d + count d - 1) mod count d)); try done.
    + apply js_rem_pos; lia.
    + apply Z.mod_pos_bound; lia.
  - simpl in He. apply bool_decide_eq_true in He.
    apply (stacking_navigate b _ r d w (n mod count d)); try done.
    + apply js_rem_pos; lia.
    + apply Z.mod_pos_bound; lia.
  - rewrite (play_eq _ _ _ Ha Hh).
    destruct (interval d); [by exists w, d|].
    eexists _, _. split; [reflexivity|].
    split; [by apply board_playing|by apply stacking_playing].
  - rewrite (pause_eq _ _ _ Ha Hh).
    destruct (interval d); [|by exists w, d].
    eexists _, _. split; [reflexivity|].
    split; [by apply board_paused|by apply stacking_paused].
  - rewrite (playpause_eq _ _ _ Ha Hh).
    destruct (interval d); eexists _, _; (split; [reflexivity|]).
    + split; [by apply board_paused|by apply stacking_paused].
    + split; [by apply board_playing|by apply stacking_playing].
  - rewrite (window_load_loaded _ Hl). by exists w, d.
  - by apply (stacking_tick b t r d).
Qed.

Lemma stacking_exec evs b r d w :
  forallb in_range evs = true → forallb not_destroy evs = true →
  board_at r d w → stacking b w d →
  ∃ w' d', exec evs w = Ok tt w' ∧ board_at r d' w' ∧
           stacking (b || reveals evs w) w' d'.
Proof.
  revert b d w. induction evs as [|e evs IH]; intros b d w Hin Hnd Hb Hst.
  - exists w, d. simpl. by rewrite orb_false_r.
  - simpl in Hin, Hnd.
    apply andb_true_iff in Hin as [He Hin].
    apply andb_true_iff in Hnd as [Hd Hnd].
    destruct (stacking_step b e r d w He Hd Hb Hst) as (w1 & d1 & Hstep & Hb1 & Hst1).
    destruct (IH _ d1 w1 Hin Hnd Hb1 Hst1) as (w2 & d2 & Hexec & Hb2 & Hst2).
    exists w2, d2. split.
    { unfold exec in *. simpl. by erewrite bind_Ok by exact Hstep. }
    split; [done|]. simpl. rewrite Hstep. simpl.
    by rewrite orb_assoc.
Qed.

Lemma shows_only_visible w i : shows w i → only_visible w i.
Proof.
  intros [Hlt Hsh]. split; [done|]. intros j e He.
  specialize (Hsh j e He). unfold slide_shown in Hsh.
  destruct (decide (j = i)); by destruct Hsh as [-> _].
Qed.

Lemma filter_none {A} (P : A → Prop) `{!∀ x, Decision (P x)} (l : list A) :
  (∀ j x, l !! j = Some x → ¬ P x) → filter P l = [].
Proof.
  induction l as [|a l IH]; intros Hl; [done|].
  rewrite filter_cons_False by apply (Hl 0%nat a eq_refl).
  apply IH. intros j x Hx. apply (Hl (S j) x Hx).
Qed.

Lemma filter_one {A} (P : A → Prop) `{!∀ x, Decision (P x)} (l : list A) i :
  (i < length l)%nat →
  (∀ j x, l !! j = Some x → P x ↔ j = i) →
  length (filter P l) = 1%nat.
Proof.
  revert i. induction l as [|a l IH]; intros i Hi Hl; [simpl in Hi; lia|].
  destruct i as [|i].
  - rewrite filter_cons_True by (by apply (Hl 0%nat a)).
    simpl. f_equal. rewrite filter_none; [done|].
    intros j x Hx Hp. by apply (Hl (S j) x Hx) in Hp.
  - rewrite filter_cons_False
      by (intros Hp; by apply (Hl 0%nat a eq_refl) in Hp).
    apply (IH i); [simpl in Hi; lia|].
    intros j x Hx. rewrite (Hl (S j) x Hx). lia.
Qed.

(** The revealed state of the specification, opacity 1 with stacking order
    101, is held by exactly one slide from the first reveal on, and by none
    before it. *)
Lemma stacking_observed b w d :
  only_visible w (Z.to_nat (current d)) → stacking b w d →
  exactly_one_revealed w = b.
Proof.
  intros [Hlt Hop] Hst. unfold exactly_one_revealed.
  destruct b; simpl in Hst.
  - apply andb_true_iff. split.
    + apply bool_decide_eq_true.
      apply (filter_one _ _ (Z.to_nat (current d))); [done|].
      intros j e He. specialize (Hop j e He). specialize (Hst j e He).
      unfold is_revealed. rewrite bool_decide_eq_true.
      destruct (decide (j = Z.to_nat (current d))) as [->|Hne].
      * intuition.
      * rewrite Hop. split; [intros [[=] _]|done].
    + apply forallb_forall. intros e He%list_elem_of_In.
      apply list_elem_of_lookup in He as [j He].
      specialize (Hop j e He). specialize (Hst j e He).
      unfold is_revealed, is_hidden.
      destruct (decide (j = Z.to_nat (current d))).
      * rewrite bool_decide_eq_true_2 by done. done.
      * rewrite (bool_decide_eq_true_2 (opacity e = Some 0%Q)) by done.
        apply orb_true_r.
  - destruct Hst as [Hu _]. apply andb_false_iff. left.
    apply bool_decide_eq_false.
    rewrite filter_none; [done|].
    intros j e He. unfold is_revealed. rewrite bool_decide_eq_true.
    rewrite (Hu j e He). by intros [_ [=]].
Qed.

(** C5, amended: on a container with at least one slide that is initialized
    by one [init] call and on which [destroy] is not called, the load
    callback and every later sequence of events without a jump to a
    negative index run without error, and afterwards exactly one slide, the
    one at the current index, has opacity 1 and every other slide opacity 0.
    From the first call of [_reveal] on (a [next], [previous] or [jump], or
    the firing of a registered timer) the visible slide has the stacking
    order 101 and every other slide 100 or none, so that exactly one slide
    is in the revealed state; until then no slide has a stacking order, no
    slide is in the revealed state, and the visible slide is slide 0. *)
Theorem one_slide_visible cls cw ch boxes o evs :
  (1 ≤ length boxes)%nat →
  forallb in_range evs = true → forallb not_destroy evs = true →
  let w0 := run [EInit o; ELoad] (fresh_page cls cw ch boxes) in
  ∃ w d, exec (EInit o :: ELoad :: evs) (fresh_page cls cw ch boxes) = Ok tt w ∧
         state w = Some d ∧
         0 ≤ current d < count d ∧
         only_visible w (Z.to_nat (current d)) ∧
         exactly_one_revealed w = reveals evs w0 ∧
         (if reveals evs w0
          then raised w (Z.to_nat (current d))
          else unstacked w ∧ current d = 0).
Proof.
  intros Hlen Hin Hnd w0.
  assert (Hne : boxes ≠ []) by (intros ->; simpl in Hlen; lia).
  destruct (fresh_board cls cw ch boxes o Hne) as (w0' & d0 & Hex0 & Hb0 & Hc0).
  assert (Hw0 : w0 = w0') by (by apply exec_run).
  pose proof (fresh_unstacked _ _ _ _ _ _ Hex0) as Hu0.
  destruct (stacking_exec evs false 0%nat d0 w0' Hin Hnd Hb0)
    as (w & d & Hex & Hb & Hst); [by split|].
  simpl in Hst. rewrite <- Hw0 in Hst.
  pose proof Hb as (Ha & Hh & _ & _ & _ & Hcur & _ & Hsh).
  apply shows_only_visible in Hsh.
  exists w, d. split.
  { change (EInit o :: ELoad :: evs) with ([EInit o; ELoad] ++ evs).
    by rewrite (exec_app _ _ _ _ Hex0). }
  split; [by apply (state_Some _ 0%nat)|]. split; [done|]. split; [done|].
  split; [by apply (stacking_observed _ _ d)|exact Hst].
Qed.

Lemma one_slide_visible_witness :
  ∃ w d, exec [EInit no_options; ELoad; ENext; EJump 7; ETick 1%positive;
               EPause; EPrevious] (page 3) = Ok tt w ∧
         state w = Some d ∧
         0 ≤ current d < count d ∧
         only_visible w (Z.to_nat (current d)) ∧
         exactly_one_revealed w
         = reveals [ENext; EJump 7; ETick 1%positive; EPause; EPrevious]
                   (run [EInit no_options; ELoad] (page 3)) ∧
         (if reveals [ENext; EJump 7; ETick 1%positive; EPause; EPrevious]
                     (run [EInit no_options; ELoad] (page 3))
          then raised w (Z.to_nat (current d))
          else unstacked w ∧ current d = 0).
Proof.
  apply (one_slide_visible [] 300%Q 200%Q (replicate 3 (100%Q, 400%Q))
           no_options
           [ENext; EJump 7; ETick 1%positive; EPause; EPrevious]).
  - simpl. lia.
  - reflexivity.
  - reflexivity.
Defined.

(** ** Timer handle and playing *)

(** C6 as stated fails: after two [init] calls before the load event two
    timers run; [pause] clears the handle of the attached object and its
    timer, and the timer of the other object keeps running. *)
Lemma handle_cleared_timer_running :
  let w := run [EInit no_options; EInit no_options; ELoad; EPause] (page 2) in
  handle_set w = false ∧ timer_running w = true.
Proof. by vm_compute. Qed.

Lemma play_twice r w :
  timer_at r w →
  ∃ w2, exec [EPlay; EPlay] w = Ok tt w2 ∧
        handle_set w2 = true ∧ size (timers w2) = 1%nat.
Proof.
  intros Hta. pose proof Hta as (Ha & d & Hh & Hm & Ht).
  assert (H1 : ∃ w1 d1 t, play w = Ok tt w1 ∧ attached w1 = Some r ∧
                 heap w1 !! r = Some d1 ∧ interval d1 = Some t ∧
                 timers w1 = {[ t := mkTimer r (slide_time d1) ]}).
  { rewrite (play_eq _ _ _ Ha Hh). destruct (interval d) as [t|] eqn:Hi.
    - by exists w, d, t.
    - exists (playing r (slide_time d) w),
             (with_interval (Some (next_timer w)) d), (next_timer w).
      unfold playing. simpl. rewrite list_lookup_alter_eq, Hh, Ht.
      by rewrite insert_empty. }
  destruct H1 as (w1 & d1 & t & Hp1 & Ha1 & Hh1 & Hi1 & Ht1).
  exists w1. split.
  - unfold exec. simpl. erewrite bind_Ok by exact Hp1.
    erewrite bind_Ok; [reflexivity|].
    by rewrite (play_eq _ _ _ Ha1 Hh1), Hi1.
  - unfold handle_set. rewrite (state_Some _ _ _ Ha1 Hh1), Hi1, Ht1.
    split; [by apply bool_decide_eq_true_2|apply map_size_singleton].
Qed.

Lemma pause_clears r w :
  timer_at r w →
  ∃ w1, exec [EPause] w = Ok tt w1 ∧ handle_set w1 = false ∧ timers w1 = ∅.
Proof.
  intros Hta. pose proof Hta as (Ha & d & Hh & Hm & Ht).
  assert (H1 : ∃ w1 d1, pause w = Ok tt w1 ∧ attached w1 = Some r ∧
                 heap w1 !! r = Some d1 ∧ interval d1 = None ∧
                 timers w1 = ∅).
  { rewrite (pause_eq _ _ _ Ha Hh). destruct (interval d) as [t|] eqn:Hi.
    - exists (paused r t w), (with_interval None d).
      unfold paused. simpl. rewrite list_lookup_alter_eq, Hh, Ht.
      by rewrite delete_singleton_eq.
    - by exists w, d. }
  destruct H1 as (w1 & d1 & Hp1 & Ha1 & Hh1 & Hi1 & Ht1).
  exists w1. split.
  - unfold exec. simpl. by erewrite bind_Ok by exact Hp1.
  - unfold handle_set. rewrite (state_Some _ _ _ Ha1 Hh1), Hi1.
    split; [|done]. apply bool_decide_eq_false_2. by intros [].
Qed.

(** C6, amended: on a container initialized by one [init] call whose class
    list did not carry ``playing`` before, and as long as [destroy] has not
    been called, the timer handle of the attached state is set if and only
    if an interval timer is running (then the one timer the handle names),
    and if and only if the ``playing`` class is set; two [play] calls in a row leave the handle set and exactly
    one timer running; [pause] leaves the handle cleared and no timer. *)
Theorem handle_iff_playing cls cw ch boxes o evs :
  hasClass "playing" cls = false →
  forallb not_destroy evs = true →
  let w := run (EInit o :: ELoad :: evs) (fresh_page cls cw ch boxes) in
  timer_state w ∧
  (handle_set w = timer_running w ∧ handle_set w = marked_playing w) ∧
  (∃ w2, exec [EPlay; EPlay] w = Ok tt w2 ∧
         handle_set w2 = true ∧ size (timers w2) = 1%nat) ∧
  (∃ w1, exec [EPause] w = Ok tt w1 ∧
         handle_set w1 = false ∧ timers w1 = ∅).
Proof.
  intros Hcls Hevs w.
  destruct (fresh_timer cls cw ch boxes o Hcls) as (w0 & Hex0 & Hta0 & Hl0).
  assert (Hta : timer_at 0 w).
  { subst w. change (EInit o :: ELoad :: evs) with ([EInit o; ELoad] ++ evs).
    rewrite run_app, (exec_run _ _ _ Hex0).
    by apply timer_run. }
  split; [by exists 0%nat|].
  split; [by apply (timer_at_observed 0)|].
  split; [by apply (play_twice 0)|by apply (pause_clears 0)].
Qed.

Lemma handle_iff_playing_witness :
  let w := run [EInit no_options; ELoad; ENext; EPlayPause; ETick 2%positive;
                EJump (-1); EPlay] (page 3) in
  timer_state w ∧
  (handle_set w = timer_running w ∧ handle_set w = marked_playing w) ∧
  (∃ w2, exec [EPlay; EPlay] w = Ok tt w2 ∧
         handle_set w2 = true ∧ size (timers w2) = 1%nat) ∧
  (∃ w1, exec [EPause] w = Ok tt w1 ∧
         handle_set w1 = false ∧ timers w1 = ∅).
Proof.
  apply (handle_iff_playing [] 300%Q 200%Q (replicate 3 (100%Q, 400%Q))
           no_options
           [ENext; EPlayPause; ETick 2%positive; EJump (-1); EPlay]).
  - reflexivity.
  - reflexivity.
Defined.

(** ** The default slide layout *)

(** C9: [_init_slides] returns; with [containerWidth] and [containerHeight]
    the configured sizes when truthy and the measured container otherwise,
    it stores them on the data object and gives every slide [i] the size
    [widths[i]] by [heights[i]], the offsets
    [max(0, (containerWidth - widths[i]) / 2)] and
    [max(0, (containerHeight - heights[i]) / 2)], both non-negative, and
    opacity 1 for [i = 0] and 0 otherwise. *)
Theorem init_slides_layout (w : World) (r : ref) (d : Data) :
  heap w !! r = Some d →
  slides d = seq 0 (length (dom w)) →
  length (widths d) = length (dom w) →
  length (heights d) = length (dom w) →
  let containerWidth := if falsy (width d) then mb_width w else num (width d) in
  let containerHeight := if falsy (height d) then mb_height w else num (height d) in
  ∃ w' d', _init_slides r w = Ok tt w' ∧
    heap w' !! r = Some d' ∧
    width d' = Some containerWidth ∧ height d' = Some containerHeight ∧
    length (dom w') = length (dom w) ∧
    ∀ i, (i < length (dom w))%nat →
      ∃ e wi hi,
        dom w' !! i = Some e ∧
        widths d !! i = Some wi ∧ heights d !! i = Some hi ∧
        el_style e !! "width"%string = Some wi ∧
        el_style e !! "height"%string = Some hi ∧
        el_style e !! "left"%string
          = Some (Math_max 0 ((containerWidth - wi) / 2)%Q) ∧
        el_style e !! "top"%string
          = Some (Math_max 0 ((containerHeight - hi) / 2)%Q) ∧
        (0 <= Math_max 0 ((containerWidth - wi) / 2))%Q ∧
        (0 <= Math_max 0 ((containerHeight - hi) / 2))%Q ∧
        opacity e = Some (if decide (i = 0%nat) then 1%Q else 0%Q).
Proof.
  intros Hh Hs Hlw Hlh cW cH.
  rewrite (_init_slides_eq _ _ _ Hh).
  set (d' := resolve_size (mb_width w) (mb_height w) d).
  destruct (resolve_size_fields (mb_width w) (mb_height w) d)
    as (_ & _ & _ & Hs' & Hw' & Hh' & _ & _ & _ & Hcw & Hch).
  fold d' in Hs', Hw', Hh', Hcw, Hch.
  assert (Hr : (r < length (heap w))%nat) by by eapply lookup_lt_Some.
  eexists _, d'. split; [reflexivity|]. simpl.
  split; [by apply list_lookup_insert_eq|].
  split; [done|]. split; [done|].
  split; [apply laid_out_length|].
  intros i Hi.
  destruct (lookup_lt_is_Some_2 (dom w) i Hi) as [e0 He0].
  destruct (lookup_lt_is_Some_2 (widths d) i) as [wi Hwi]; [lia|].
  destruct (lookup_lt_is_Some_2 (heights d) i) as [hi Hhi]; [lia|].
  exists (css_element (layout_props d' i) e0), wi, hi.
  split.
  { rewrite Hs', Hs, length_seq, laid_out_lookup; [|congruence|lia].
    rewrite decide_True by lia. by rewrite He0. }
  split; [done|]. split; [done|].
  destruct (layout_sizes d' i wi hi (el_style e0)) as (H1 & H2 & H3 & H4);
    [congruence|congruence|].
  rewrite Hcw in H3. rewrite Hch in H4. simpl in H3, H4.
  repeat split; try done.
  - apply Q.le_max_l.
  - apply Q.le_max_l.
  - unfold opacity, css_element. cbn [el_style]. apply layout_opacity.
Qed.

Lemma init_slides_layout_witness :
  ∃ w' d' e,
    _init_slides 0 measured_page = Ok tt w' ∧
    heap w' !! 0%nat = Some d' ∧
    width d' = Some 300%Q ∧ height d' = Some 200%Q ∧
    dom w' !! 1%nat = Some e ∧
    el_style e !! "left"%string = Some (Math_max 0 ((300 - 100) / 2)%Q) ∧
    el_style e !! "top"%string = Some (Math_max 0 ((200 - 400) / 2)%Q) ∧
    opacity e = Some 0%Q.
Proof.
  destruct (init_slides_layout measured_page 0%nat measured_data)
    as (w' & d' & Hrun & Hh & Hw & Hht & _ & Hall).
  - reflexivity.
  - reflexivity.
  - reflexivity.
  - reflexivity.
  - destruct (Hall 1%nat) as (e & wi & hi & He & Hwi & Hhi & _ & _ & Hl & Ht & _ & _ & Ho).
    + simpl. lia.
    + injection Hwi as <-. injection Hhi as <-.
      exists w', d', e. repeat split; assumption.
Defined.

(** * Further properties of the plugin *)

(** ** Commands on a container without state *)

(** X1: every command but [init], called on a container that has no state
    attached (never initialized, or initialized with the load event still
    to come), throws a [TypeError] and changes nothing. *)
Theorem command_without_state_throws (w : World) (e : Event) :
  attached w = None → is_command e = true →
  step e w = Throw TypeError w.
Proof.
  intros Ha He.
  destruct e; try discriminate;
    unfold step, next, previous, jump, navigate, play, pause, playpause,
      destroy, _handler, bind, gets;
    by rewrite Ha.
Qed.

Lemma command_without_state_throws_witness :
  step (EJump 1) (run [EInit no_options] (page 3))
  = Throw TypeError (run [EInit no_options] (page 3)).
Proof.
  apply (command_without_state_throws (run [EInit no_options] (page 3))
           (EJump 1)).
  - reflexivity.
  - reflexivity.
Defined.

Lemma stateless_step e w :
  attached w = None → loaded w = true → timers w = ∅ →
  let w' := world_of (step e w) in
  (attached w' = None ∧ loaded w' = true ∧ timers w' = ∅) ∧
  dom w' = dom w ∧ classes w' = classes w ∧ ctrls w' = ctrls w.
Proof.
  intros Ha Hl Ht.
  destruct (is_command e) eqn:He.
  - by rewrite (command_without_state_throws w e Ha He).
  - destruct e; try discriminate; unfold step.
    + unfold init, bind, gets. by rewrite Ha.
    + by rewrite (window_load_loaded _ Hl).
    + unfold tick, bind, gets. by rewrite Ht, lookup_empty.
Qed.

Lemma stateless_run evs w :
  attached w = None → loaded w = true → timers w = ∅ →
  attached (run evs w) = None ∧ timers (run evs w) = ∅ ∧
  dom (run evs w) = dom w ∧ classes (run evs w) = classes w ∧
  ctrls (run evs w) = ctrls w.
Proof.
  revert w. induction evs as [|e evs IH]; intros w Ha Hl Ht; [done|].
  simpl.
  destruct (stateless_step e w Ha Hl Ht) as ((Ha' & Hl' & Ht') & Hd & Hc & Hk).
  destruct (IH _ Ha' Hl' Ht') as (? & ? & ? & ? & ?).
  repeat split; congruence.
Qed.

(** X2: a container whose first [init] comes after the window load event is
    never initialized: the bound callback does not run, so whatever events
    follow, no state is attached, no timer runs, and the slides, the class
    list and the controls stay as they were. *)
Theorem init_after_load_never_attaches cls cw ch boxes evs :
  let w0 := fresh_page cls cw ch boxes in
  let w := run (ELoad :: evs) w0 in
  attached w = None ∧ timers w = ∅ ∧
  dom w = dom w0 ∧ classes w = classes w0 ∧ ctrls w = ctrls w0.
Proof.
  intros w0 w. subst w.
  change (run (ELoad :: evs) w0) with (run evs (set_loaded true w0)).
  by destruct (stateless_run evs (set_loaded true w0)) as (? & ? & ? & ? & ?).
Qed.

(** ** A board without slides *)

(** X3: on a state object without slides (a container that had no [.slide]
    element), [next], [previous] and [jump] throw a [TypeError] on the
    undefined [data.slides[data.current]] and change nothing. *)
Theorem navigation_without_slides_throws (w : World) (d : Data) (e : Event) :
  state w = Some d → slides d = [] → interval d = None →
  is_navigation e = true →
  step e w = Throw TypeError w.
Proof.
  unfold state. intros Hst Hs Hi He.
  destruct (attached w) as [r|] eqn:Ha; [|done]. simpl in Hst.
  destruct e; try discriminate;
    unfold step, next, previous, jump, navigate, _handler, bind, gets;
    rewrite Ha, (deref_Some _ _ _ Hst); simpl; rewrite Hi; simpl;
    rewrite Hst; simpl;
    unfold _reveal, bind; rewrite (deref_Some _ _ _ Hst); simpl;
    rewrite Hs; unfold js_index; case_decide; reflexivity.
Qed.

Lemma navigation_without_slides_throws_witness :
  step ENext (run [EInit no_options; ELoad] (page 0))
  = Throw TypeError (run [EInit no_options; ELoad] (page 0)).
Proof.
  apply (navigation_without_slides_throws
           (run [EInit no_options; ELoad] (page 0))
           (mkData 0 0 None [] [] [] (Some 300%Q) (Some 200%Q)
                   2500%Q true true)
           ENext).
  - reflexivity.
  - reflexivity.
  - reflexivity.
  - reflexivity.
Defined.

(** ** The state after one initialization *)

Lemma pushed_sizes els l d :
  widths (pushed els l d)
    = widths d ++ map (λ h, default 0%Q (el_width <$> els !! h)) l ∧
  heights (pushed els l d)
    = heights d ++ map (λ h, default 0%Q (el_height <$> els !! h)) l.
Proof.
  revert d. induction l as [|h l IH]; intros d; simpl.
  - by rewrite !app_nil_r.
  - unfold pushed in *. simpl.
    destruct (IH (match els !! h with
                  | Some e => push_slide h (el_height e) (el_width e) d
                  | None => push_slide h 0%Q 0%Q d
                  end)) as [-> ->].
    destruct (els !! h); simpl; by rewrite <- !app_assoc.
Qed.

Lemma measured_boxes (boxes : list (Q * Q)) :
  let els := map (λ b, mkElement b.1 b.2 ∅) boxes in
  map (λ h, default 0%Q (el_width <$> els !! h)) (seq 0 (length boxes))
    = boxes.*1 ∧
  map (λ h, default 0%Q (el_height <$> els !! h)) (seq 0 (length boxes))
    = boxes.*2.
Proof.
  intros els. split; apply list_eq; intros i;
    rewrite !list_lookup_fmap;
    destruct (decide (i < length boxes)%nat) as [Hi|Hi].
  - rewrite lookup_seq_lt by done. simpl. subst els.
    rewrite list_lookup_fmap.
    destruct (lookup_lt_is_Some_2 boxes i Hi) as [b ->]. done.
  - rewrite lookup_seq_ge, (lookup_ge_None_2 boxes) by lia. done.
  - rewrite lookup_seq_lt by done. simpl. subst els.
    rewrite list_lookup_fmap.
    destruct (lookup_lt_is_Some_2 boxes i Hi) as [b ->]. done.
  - rewrite lookup_seq_ge, (lookup_ge_None_2 boxes) by lia. done.
Qed.

Lemma after_load_ctrls c d w :
  let d2 := resolve_size (mb_width w) (mb_height w)
              (pushed (dom w) (lc_slides c) d) in
  interval d2 = None →
  ctrls (after_load c d w)
    = if controls d2 then ctrls w ++ [controls_block] else ctrls w.
Proof.
  intros d2 Hint. unfold after_load. fold d2. rewrite Hint.
  by destruct (autostart d2 && bool_decide (1 < count d2)), (controls d2).
Qed.

(** Everything the load callback of the one [init] on a fresh page
    leaves behind. *)
Lemma init_load_state cls cw ch boxes o :
  let n := length boxes in
  let w := run [EInit o; ELoad] (fresh_page cls cw ch boxes) in
  ∃ d,
    attached w = Some 0%nat ∧ heap w !! 0%nat = Some d ∧
    count d = Z.of_nat n ∧ current d = 0 ∧ slides d = seq 0 n ∧
    widths d = boxes.*1 ∧ heights d = boxes.*2 ∧
    slide_time d = default 2500%Q (o_slide_time o) ∧
    interval d = (if autostarts o n then Some 1%positive else None) ∧
    timers w = (if autostarts o n
                then {[ 1%positive := mkTimer 0 (slide_time d) ]} else ∅) ∧
    classes w = add_class "moodboard"
                  (if autostarts o n then add_class "playing" cls else cls) ∧
    ctrls w = (if default true (o_controls o) then [controls_block] else []).
Proof.
  intros n w. subst w.
  rewrite (exec_run _ _ _ (exec_init_load cls cw ch boxes o)).
  fold n.
  set (w1 := set_loaded true _).
  set (c := mkLoadClosure (seq 0 n) 0).
  set (d0 := extend_defaults n o).
  pose proof (after_load_proj c d0 w1) as Hp.
  pose proof (after_load_ctrls c d0 w1) as Hk.
  pose proof (resolve_size_fields (mb_width w1) (mb_height w1)
                (pushed (dom w1) (seq 0 n) d0)) as Hr.
  pose proof (pushed_fields (dom w1) (seq 0 n) d0) as Hf.
  pose proof (pushed_sizes (dom w1) (seq 0 n) d0) as [Hw Hh].
  pose proof (measured_boxes boxes) as [Hmw Hmh].
  cbv zeta in Hp, Hk, Hr, Hf, Hmw, Hmh.
  change (lc_slides c) with (seq 0 n) in Hp, Hk.
  change (lc_data c) with 0%nat in Hp.
  change (dom w1) with (map (λ b : Q * Q, mkElement b.1 b.2 ∅) boxes) in Hw, Hh.
  fold n in Hmw, Hmh. rewrite Hmw in Hw. rewrite Hmh in Hh.
  set (d1 := pushed _ _ d0) in *.
  set (d2 := resolve_size _ _ d1) in *.
  destruct Hr as (Hc2 & Hcur2 & Hi2 & Hs2 & Hw2 & Hh2 & Hst2 & Hau2 & Hco2 & _).
  destruct Hf as (Hc1 & Hcur1 & Hi1 & _ & _ & Hst1 & Hau1 & Hco1 & Hs1 & _).
  assert (Hint : interval d2 = None) by (by rewrite Hi2, Hi1).
  destruct Hp as (Ha & _ & _ & Hheap & Htm & Hcls); [done|simpl; lia|].
  rewrite Hk by done.
  assert (Hauto : autostart d2 && bool_decide (1 < count d2) = autostarts o n).
  { unfold autostarts. by rewrite Hau2, Hau1, Hc2, Hc1. }
  rewrite Hauto in Hheap, Htm, Hcls.
  eexists. split; [exact Ha|]. split; [exact Hheap|].
  rewrite Htm, Hcls, Hco2, Hco1.
  destruct (autostarts o n); simpl;
    rewrite ?Hc2, ?Hc1, ?Hcur2, ?Hcur1, ?Hs2, ?Hs1, ?Hw2, ?Hh2, ?Hw, ?Hh,
      ?Hst2, ?Hst1, ?Hint;
    repeat split; done.
Qed.

(** X4: the load callback measures every slide once and in document order:
    after the one [init] of a fresh page the attached state has the slide
    count, current index 0, the handles of all slides, and their measured
    widths and heights as parallel arrays. *)
Theorem load_measures_slides cls cw ch boxes o :
  let w := run [EInit o; ELoad] (fresh_page cls cw ch boxes) in
  ∃ d, state w = Some d ∧
       count d = Z.of_nat (length boxes) ∧ current d = 0 ∧
       slides d = seq 0 (length boxes) ∧
       widths d = boxes.*1 ∧ heights d = boxes.*2.
Proof.
  destruct (init_load_state cls cw ch boxes o)
    as (d & Ha & Hh & Hc & Hcur & Hs & Hw & Hht & _).
  exists d. split; [by apply (state_Some _ 0%nat)|]. done.
Qed.

(** X5: autoplay starts in the load callback exactly when the [autostart]
    option is on (the default) and there is more than one slide: then one
    timer with the configured slide time (default 2500) runs on the attached
    state, the handle is set and the container is marked ``playing``;
    otherwise no timer runs and the handle is null. *)
Theorem autostart_rule cls cw ch boxes o :
  let w := run [EInit o; ELoad] (fresh_page cls cw ch boxes) in
  let auto := autostarts o (length boxes) in
  handle_set w = auto ∧ timer_running w = auto ∧
  timers w = (if auto
              then {[ 1%positive :=
                        mkTimer 0 (default 2500%Q (o_slide_time o)) ]}
              else ∅) ∧
  marked_playing w = auto || hasClass "playing" cls.
Proof.
  intros w auto. subst w auto.
  destruct (init_load_state cls cw ch boxes o)
    as (d & Ha & Hh & _ & _ & _ & _ & _ & Hst & Hi & Htm & Hcls & _).
  unfold handle_set, timer_running, marked_playing.
  rewrite (state_Some _ _ _ Ha Hh), Hi, Htm, Hcls, Hst.
  rewrite hasClass_add_ne by done.
  destruct (autostarts o (length boxes)); simpl;
    rewrite ?hasClass_add, ?map_size_singleton, ?map_size_empty;
    repeat split; done.
Qed.

(** X6: the load callback renders one controls block (anchors previous, play,
    next) unless the [controls] option is off, and ends by marking the
    container with the ``moodboard`` class; no other class but ``playing``
    is touched. *)
Theorem load_renders_controls cls cw ch boxes o :
  let w := run [EInit o; ELoad] (fresh_page cls cw ch boxes) in
  ctrls w = (if default true (o_controls o) then [controls_block] else []) ∧
  hasClass "moodboard" (classes w) = true ∧
  ∀ c, c ≠ "moodboard"%string → c ≠ "playing"%string →
       hasClass c (classes w) = hasClass c cls.
Proof.
  intros w. subst w.
  destruct (init_load_state cls cw ch boxes o)
    as (d & _ & _ & _ & _ & _ & _ & _ & _ & _ & _ & Hcls & Hk).
  rewrite Hk, Hcls. split; [done|]. split; [apply hasClass_add|].
  intros c H1 H2. rewrite hasClass_add_ne by done.
  destruct (autostarts o (length boxes)); [|done].
  by rewrite hasClass_add_ne.
Qed.

(** ** Stepping through the slides *)

Lemma exec_cons e evs w w1 :
  step e w = Ok tt w1 → exec (e :: evs) w = exec evs w1.
Proof. intros H. unfold exec. simpl. by erewrite bind_Ok by exact H. Qed.

Lemma exec_snoc evs e w w1 w2 :
  exec evs w = Ok tt w1 → step e w1 = Ok tt w2 →
  exec (evs ++ [e]) w = Ok tt w2.
Proof.
  intros H1 H2. rewrite (exec_app _ _ _ _ H1).
  rewrite (exec_cons _ _ _ _ H2). reflexivity.
Qed.

Lemma replicate_snoc {A} (x : A) k : replicate (S k) x = replicate k x ++ [x].
Proof. induction k as [|k IH]; simpl in *; [done|by rewrite <- IH]. Qed.

(** [k] calls of one navigation command whose target moves the index by
    [delta]. *)
Lemma navigate_steps target delta e k w r d :
  step e = navigate target →
  (∀ d0, 1 ≤ count d0 → 0 ≤ current d0 < count d0 →
         target d0 = Some ((current d0 + delta) mod count d0)) →
  (∀ d0 t, target (with_interval t d0) = target d0) →
  attached w = Some r → heap w !! r = Some d →
  count d = Z.of_nat (length (slides d)) →
  0 ≤ current d < count d →
  ∃ w' d', exec (replicate k e) w = Ok tt w' ∧
           attached w' = Some r ∧ heap w' !! r = Some d' ∧
           count d' = count d ∧ slides d' = slides d ∧
           current d' = (current d + Z.of_nat k * delta) mod count d.
Proof.
  intros He Ht Hti Ha Hh Hc Hcur.
  induction k as [|k IH].
  - exists w, d. repeat split; try done.
    rewrite Z.add_0_r. symmetry. by apply Z.mod_small.
  - destruct IH as (w1 & d1 & Hex & Ha1 & Hh1 & Hc1 & Hs1 & Hcur1).
    assert (Hr1 : 0 ≤ current d1 < count d1).
    { rewrite Hcur1, Hc1. apply Z.mod_pos_bound. lia. }
    destruct (navigate_current target w1 r d1
                ((current d1 + delta) mod count d1))
      as (w2 & d2 & Hnav & Ha2 & Hh2 & Hcur2 & Hc2 & Hs2 & _); try done.
    { congruence. }
    { apply Ht; lia. }
    { apply Z.mod_pos_bound. lia. }
    exists w2, d2. split.
    { rewrite replicate_snoc. apply (exec_snoc _ _ _ w1); [done|].
      by rewrite He. }
    repeat split; try congruence.
    rewrite Hcur2, Hcur1, Hc1. rewrite Z.add_mod_idemp_l by lia.
    f_equal. lia.
Qed.

(** X7: on an initialized board with the current index in range, [k] calls of
    [next] move the current index to [(current + k) mod count] and [k] calls
    of [previous] to [(current - k) mod count], without error; in
    particular [count] calls of either lead back to the slide they started
    from. *)
Theorem next_previous_steps (w : World) (r : ref) (d : Data) (k : nat) :
  attached w = Some r → heap w !! r = Some d →
  count d = Z.of_nat (length (slides d)) →
  0 ≤ current d < count d →
  (∃ w' d', exec (replicate k ENext) w = Ok tt w' ∧ state w' = Some d' ∧
            current d' = (current d + Z.of_nat k) mod count d) ∧
  (∃ w' d', exec (replicate k EPrevious) w = Ok tt w' ∧ state w' = Some d' ∧
            current d' = (current d - Z.of_nat k) mod count d) ∧
  (∃ w' d', exec (replicate (Z.to_nat (count d)) ENext) w = Ok tt w' ∧
            state w' = Some d' ∧ current d' = current d) ∧
  (∃ w' d', exec (replicate (Z.to_nat (count d)) EPrevious) w = Ok tt w' ∧
            state w' = Some d' ∧ current d' = current d).
Proof.
  intros Ha Hh Hc Hcur.
  assert (Hnext : ∀ k, ∃ w' d', exec (replicate k ENext) w = Ok tt w' ∧
            state w' = Some d' ∧
            current d' = (current d + Z.of_nat k) mod count d).
  { intros k'.
    destruct (navigate_steps (λ d, js_rem (current d + 1) (count d)) 1
                ENext k' w r d)
      as (w' & d' & Hex & Ha' & Hh' & _ & _ & Hcur'); try done.
    { intros d0 ? ?. apply js_rem_pos; lia. }
    exists w', d'. split; [done|]. split; [by apply (state_Some _ r)|].
    rewrite Hcur'. f_equal. lia. }
  assert (Hprev : ∀ k, ∃ w' d', exec (replicate k EPrevious) w = Ok tt w' ∧
            state w' = Some d' ∧
            current d' = (current d - Z.of_nat k) mod count d).
  { intros k'.
    destruct (navigate_steps (λ d, js_rem (current d + count d - 1) (count d))
                (-1) EPrevious k' w r d)
      as (w' & d' & Hex & Ha' & Hh' & _ & _ & Hcur'); try done.
    { intros d0 ? ?. rewrite js_rem_pos by lia. f_equal.
      replace (current d0 + count d0 - 1)
        with (current d0 + -1 + 1 * count d0) by lia.
      apply Z.mod_add. lia. }
    exists w', d'. split; [done|]. split; [by apply (state_Some _ r)|].
    rewrite Hcur'. f_equal. lia. }
  split; [apply Hnext|]. split; [apply Hprev|]. split.
  - destruct (Hnext (Z.to_nat (count d))) as (w' & d' & Hex & Hst & Hcur').
    exists w', d'. split; [done|]. split; [done|].
    rewrite Hcur', Z2Nat.id by lia.
    replace (current d + count d) with (current d + 1 * count d) by lia.
    rewrite Z.mod_add by lia. apply Z.mod_small. lia.
  - destruct (Hprev (Z.to_nat (count d))) as (w' & d' & Hex & Hst & Hcur').
    exists w', d'. split; [done|]. split; [done|].
    rewrite Hcur', Z2Nat.id by lia.
    replace (current d - count d) with (current d + (-1) * count d) by lia.
    rewrite Z.mod_add by lia. apply Z.mod_small. lia.
Qed.

Lemma next_previous_steps_witness :
  ∃ w' d', exec (replicate 7 ENext) (run [EInit no_options; ELoad] (page 3))
             = Ok tt w' ∧
           state w' = Some d' ∧ current d' = (0 + 7) mod 3.
Proof.
  apply (next_previous_steps (run [EInit no_options; ELoad] (page 3)) 0%nat
           (mkData 3 0 (Some 1%positive) [0; 1; 2]%nat
                   [100; 100; 100]%Q [400; 400; 400]%Q
                   (Some 300%Q) (Some 200%Q) 2500%Q true true) 7).
  - reflexivity.
  - reflexivity.
  - reflexivity.
  - simpl. lia.
Defined.

(** ** Autoplay *)

Lemma tick_current t c w r d :
  timers w !! t = Some c → tm_data c = r → heap w !! r = Some d →
  count d = Z.of_nat (length (slides d)) →
  0 ≤ current d < count d →
  ∃ w' d', tick t w = Ok tt w' ∧
           attached w' = Some r ∧ heap w' !! r = Some d' ∧
           timers w' = timers w ∧ classes w' = classes w ∧
           count d' = count d ∧ slides d' = slides d ∧
           interval d' = interval d ∧
           current d' = (current d + 1) mod count d.
Proof.
  intros Ht Hc Hh Hcnt Hcur.
  assert (Hm : 0 ≤ (current d + 1) mod count d < count d)
    by (apply Z.mod_pos_bound; lia).
  destruct (js_index_lt (slides d) (current d)) as [h Hh1]; [lia|].
  destruct (js_index_lt (slides d) ((current d + 1) mod count d))
    as [h' Hh2]; [lia|].
  unfold tick, bind, gets. rewrite Ht, Hc, (deref_Some _ _ _ Hh). simpl.
  rewrite js_rem_pos by lia.
  rewrite (_reveal_eq _ _ _ h h' _ Hh Hh1 Hh2).
  eexists _, (with_current ((current d + 1) mod count d) d).
  split; [reflexivity|]. unfold revealed_world. simpl.
  by rewrite list_lookup_alter_eq, Hh.
Qed.

(** X8: while a timer registered by [play] on a board with the current index
    in range keeps firing, every tick reveals the next slide cyclically:
    after [k] ticks the current index is [(current + k) mod count], the
    state of the timer's closure is the attached one, and the timer is
    still registered. *)
Theorem ticks_advance (w : World) (r : ref) (d : Data) (t : positive)
    (delay : Q) (k : nat) :
  timers w !! t = Some (mkTimer r delay) → heap w !! r = Some d →
  attached w = Some r →
  count d = Z.of_nat (length (slides d)) →
  0 ≤ current d < count d →
  ∃ w' d', exec (replicate k (ETick t)) w = Ok tt w' ∧
           state w' = Some d' ∧
           current d' = (current d + Z.of_nat k) mod count d ∧
           timers w' = timers w ∧ interval d' = interval d.
Proof.
  intros Ht Hh Ha Hc Hcur.
  assert (H : ∃ w' d', exec (replicate k (ETick t)) w = Ok tt w' ∧
            attached w' = Some r ∧ heap w' !! r = Some d' ∧
            timers w' = timers w ∧ count d' = count d ∧
            slides d' = slides d ∧ interval d' = interval d ∧
            current d' = (current d + Z.of_nat k) mod count d).
  { induction k as [|k IH].
    - exists w, d. repeat split; try done.
      rewrite Z.add_0_r. symmetry. by apply Z.mod_small.
    - destruct IH as (w1 & d1 & Hex & Ha1 & Hh1 & Ht1 & Hc1 & Hs1 & Hi1 & Hcur1).
      destruct (tick_current t (mkTimer r delay) w1 r d1)
        as (w2 & d2 & Htick & Ha2 & Hh2 & Ht2 & _ & Hc2 & Hs2 & Hi2 & Hcur2);
        try done.
      { by rewrite Ht1. }
      { congruence. }
      { rewrite Hcur1, Hc1. apply Z.mod_pos_bound. lia. }
      exists w2, d2. split.
      { rewrite replicate_snoc. by apply (exec_snoc _ _ _ w1). }
      repeat split; try congruence.
      rewrite Hcur2, Hcur1, Hc1. rewrite Z.add_mod_idemp_l by lia.
      f_equal. lia. }
  destruct H as (w' & d' & Hex & Ha' & Hh' & Ht' & _ & _ & Hi' & Hcur').
  exists w', d'. split; [done|]. split; [by apply (state_Some _ r)|]. done.
Qed.

Lemma ticks_advance_witness :
  ∃ w' d',
    exec (replicate 3 (ETick 1%positive))
         (run [EInit no_options; ELoad] (page 3)) = Ok tt w' ∧
    state w' = Some d' ∧ current d' = (0 + 3) mod 3 ∧
    timers w' = timers (run [EInit no_options; ELoad] (page 3)) ∧
    interval d' = Some 1%positive.
Proof.
  apply (ticks_advance (run [EInit no_options; ELoad] (page 3)) 0%nat
           (mkData 3 0 (Some 1%positive) [0; 1; 2]%nat
                   [100; 100; 100]%Q [400; 400; 400]%Q
                   (Some 300%Q) (Some 200%Q) 2500%Q true true)
           1%positive 2500%Q 3).
  - reflexivity.
  - reflexivity.
  - reflexivity.
  - reflexivity.
  - simpl. lia.
Defined.

(** X9: a navigation command on a playing board stops autoplay before it
    reveals its slide: the timer named by the handle is cleared, the handle
    is null, the ``playing`` class is gone, and a late firing of that timer
    does nothing. *)
Theorem navigation_pauses_autoplay (w : World) (r : ref) (d : Data)
    (t : positive) (e : Event) :
  attached w = Some r → heap w !! r = Some d →
  interval d = Some t →
  count d = Z.of_nat (length (slides d)) →
  0 ≤ current d < count d →
  is_navigation e = true → in_range e = true →
  ∃ w' d', step e w = Ok tt w' ∧ state w' = Some d' ∧
           interval d' = None ∧
           timers w' = delete t (timers w) ∧
           marked_playing w' = false ∧
           tick t w' = Ok tt w'.
Proof.
  intros Ha Hh Hi Hc Hcur He Hr.
  assert (Hnav : ∀ target n,
            target d = Some n → (∀ i, target (with_interval i d) = target d) →
            0 ≤ n < count d →
            ∃ w' d', navigate target w = Ok tt w' ∧ state w' = Some d' ∧
              interval d' = None ∧ timers w' = delete t (timers w) ∧
              marked_playing w' = false ∧ tick t w' = Ok tt w').
  { intros target n Ht Hti Hn.
    destruct (js_index_lt (slides d) (current d)) as [h Hh1]; [lia|].
    destruct (js_index_lt (slides d) n) as [h' Hh2]; [lia|].
    rewrite (navigate_eq target w r d h h' n) by done. rewrite Hi.
    eexists _, (with_current n (with_interval None d)).
    split; [reflexivity|]. unfold state, marked_playing, tick, bind, gets.
    unfold revealed_world, paused. simpl.
    rewrite !list_lookup_alter_eq, Hh, hasClass_remove, lookup_delete_eq.
    done. }
  assert (Hm : ∀ x, 0 ≤ x → 0 ≤ x mod count d < count d)
    by (intros; apply Z.mod_pos_bound; lia).
  destruct e; try discriminate; unfold step, next, previous, jump.
  - apply (Hnav _ ((current d + 1) mod count d));
      [apply js_rem_pos; lia|done|apply Hm; lia].
  - apply (Hnav _ ((current d + count d - 1) mod count d));
      [apply js_rem_pos; lia|done|apply Hm; lia].
  - simpl in Hr. apply bool_decide_eq_true in Hr.
    apply (Hnav _ (n mod count d));
      [apply js_rem_pos; lia|done|apply Hm; lia].
Qed.

Lemma navigation_pauses_autoplay_witness :
  ∃ w' d', step ENext (run [EInit no_options; ELoad] (page 3)) = Ok tt w' ∧
           state w' = Some d' ∧ interval d' = None ∧
           timers w'
             = delete 1%positive
                 (timers (run [EInit no_options; ELoad] (page 3))) ∧
           marked_playing w' = false ∧
           tick 1%positive w' = Ok tt w'.
Proof.
  apply (navigation_pauses_autoplay
           (run [EInit no_options; ELoad] (page 3)) 0%nat
           (mkData 3 0 (Some 1%positive) [0; 1; 2]%nat
                   [100; 100; 100]%Q [400; 400; 400]%Q
                   (Some 300%Q) (Some 200%Q) 2500%Q true true)
           1%positive ENext).
  - reflexivity.
  - reflexivity.
  - reflexivity.
  - reflexivity.
  - simpl. lia.
  - reflexivity.
  - reflexivity.
Defined.

(** X10: [playpause] toggles on any attached state: with a handle set it clears
    that timer and the handle, with a null handle it registers one new
    timer on the state with its slide time and stores its handle. *)
Theorem playpause_toggles (w : World) (r : ref) (d : Data) :
  attached w = Some r → heap w !! r = Some d →
  ∃ w' d', playpause w = Ok tt w' ∧ state w' = Some d' ∧
           handle_set w' = negb (handle_set w) ∧
           marked_playing w' = negb (handle_set w) ∧
           timers w' = match interval d with
                       | Some t => delete t (timers w)
                       | None => <[next_timer w := mkTimer r (slide_time d)]>
                                   (timers w)
                       end ∧
           interval d' = match interval d with
                         | Some _ => None
                         | None => Some (next_timer w)
                         end.
Proof.
  intros Ha Hh. rewrite (playpause_eq _ _ _ Ha Hh).
  assert (Hhs : handle_set w = bool_decide (is_Some (interval d))).
  { unfold handle_set. rewrite (state_Some _ _ _ Ha Hh).
    by destruct (interval d). }
  rewrite Hhs. clear Hhs.
  destruct (interval d) as [t|] eqn:Hi.
  - eexists _, (with_interval None d). split; [reflexivity|].
    unfold handle_set, state, marked_playing, paused. simpl.
    rewrite list_lookup_alter_eq, Hh, hasClass_remove. done.
  - eexists _, (with_interval (Some (next_timer w)) d).
    split; [reflexivity|].
    unfold handle_set, state, marked_playing, playing. simpl.
    rewrite Ha. simpl. rewrite list_lookup_alter_eq, Hh, hasClass_add. done.
Qed.

Lemma playpause_toggles_witness :
  ∃ w' d', playpause (run [EInit manual; ELoad] (page 3)) = Ok tt w' ∧
           state w' = Some d' ∧
           handle_set w'
             = negb (handle_set (run [EInit manual; ELoad] (page 3))) ∧
           marked_playing w'
             = negb (handle_set (run [EInit manual; ELoad] (page 3))) ∧
           timers w' = <[1%positive := mkTimer 0 2500%Q]> ∅ ∧
           interval d' = Some 1%positive.
Proof.
  apply (playpause_toggles (run [EInit manual; ELoad] (page 3)) 0%nat
           (mkData 3 0 None [0; 1; 2]%nat
                   [100; 100; 100]%Q [400; 400; 400]%Q
                   (Some 300%Q) (Some 200%Q) 2500%Q false true)).
  - reflexivity.
  - reflexivity.
Defined.

(** ** After [destroy] *)

Lemma remove_class_idem c l :
  remove_class c (remove_class c l) = remove_class c l.
Proof.
  unfold remove_class. induction l as [|x l IH]; [done|].
  rewrite filter_cons. case_decide as Hx.
  - rewrite filter_cons, decide_True by done. by rewrite IH.
  - exact IH.
Qed.

Lemma destroyed_idem d w : destroyed d (destroyed d w) = destroyed d w.
Proof.
  unfold destroyed. destruct (interval d) as [t|]; simpl;
    unfold set_ctrls, set_classes, set_timers; simpl;
    rewrite remove_class_idem, ?delete_delete_eq; reflexivity.
Qed.

(** X11: [destroy] on an attached state cancels the timer the handle names and
    is idempotent: a second [destroy] returns and changes nothing, and a
    late firing of the cancelled timer does nothing. *)
Theorem destroy_twice (w : World) (d : Data) :
  state w = Some d →
  ∃ w', destroy w = Ok tt w' ∧ destroy w' = Ok tt w' ∧
        match interval d with
        | Some t => timers w' = delete t (timers w) ∧ tick t w' = Ok tt w'
        | None => timers w' = timers w
        end.
Proof.
  unfold state. intros Hst.
  destruct (attached w) as [r|] eqn:Ha; [|done]. simpl in Hst.
  rewrite (destroy_eq _ _ _ Ha Hst). eexists. split; [reflexivity|].
  assert (Ha' : attached (destroyed d w) = Some r).
  { unfold destroyed. by destruct (interval d). }
  assert (Hh' : heap (destroyed d w) !! r = Some d).
  { unfold destroyed. by destruct (interval d). }
  rewrite (destroy_eq _ _ _ Ha' Hh'), destroyed_idem. split; [done|].
  unfold destroyed, tick, bind, gets.
  destruct (interval d) as [t|]; simpl; [|done].
  by rewrite lookup_delete_eq.
Qed.

Lemma destroy_twice_witness :
  ∃ w', destroy (run [EInit no_options; ELoad] (page 2)) = Ok tt w' ∧
        destroy w' = Ok tt w' ∧
        timers w'
          = delete 1%positive (timers (run [EInit no_options; ELoad] (page 2))) ∧
        tick 1%positive w' = Ok tt w'.
Proof.
  apply (destroy_twice (run [EInit no_options; ELoad] (page 2))
           (mkData 2 0 (Some 1%positive) [0; 1]%nat
                   [100; 100]%Q [400; 400]%Q
                   (Some 300%Q) (Some 200%Q) 2500%Q true true)).
  reflexivity.
Defined.

(** X12: [destroy] does not clear the timer handle of the state it leaves
    attached.  After a [destroy] on a playing board, [play] finds the stale
    handle and starts nothing: the handle is set while no timer runs and the
    container is not marked ``playing``; the next [playpause] only clears
    the stale handle, and the one after it starts a timer. *)
Theorem play_after_destroy (w : World) (r : ref) (d : Data) (t : positive)
    (c : Timer) :
  attached w = Some r → heap w !! r = Some d →
  interval d = Some t → timers w = {[ t := c ]} →
  (∃ w', exec [EDestroy; EPlay] w = Ok tt w' ∧
         handle_set w' = true ∧ timer_running w' = false ∧
         marked_playing w' = false) ∧
  (∃ w', exec [EDestroy; EPlayPause] w = Ok tt w' ∧
         handle_set w' = false ∧ timer_running w' = false) ∧
  (∃ w', exec [EDestroy; EPlayPause; EPlayPause] w = Ok tt w' ∧
         handle_set w' = true ∧ timer_running w' = true).
Proof.
  intros Ha Hh Hi Ht.
  assert (Hd : destroy w = Ok tt (destroyed d w)) by by apply (destroy_eq _ r).
  set (w1 := destroyed d w) in *.
  assert (Ha1 : attached w1 = Some r) by (subst w1; unfold destroyed; by rewrite Hi).
  assert (Hh1 : heap w1 !! r = Some d) by (subst w1; unfold destroyed; by rewrite Hi).
  assert (Ht1 : timers w1 = ∅).
  { subst w1. unfold destroyed. rewrite Hi. simpl.
    rewrite Ht. apply delete_singleton_eq. }
  assert (Hc1 : hasClass "playing" (classes w1) = false).
  { subst w1. unfold destroyed. rewrite Hi. simpl. apply hasClass_remove. }
  clearbody w1.
  assert (Hplay : play w1 = Ok tt w1) by by rewrite (play_eq _ _ _ Ha1 Hh1), Hi.
  assert (Hpp : playpause w1 = Ok tt (paused r t w1))
    by by rewrite (playpause_eq _ _ _ Ha1 Hh1), Hi.
  set (w2 := paused r t w1) in *.
  assert (Ha2 : attached w2 = Some r) by done.
  assert (Hh2 : heap w2 !! r = Some (with_interval None d)).
  { subst w2. unfold paused. simpl. by rewrite list_lookup_alter_eq, Hh1. }
  assert (Ht2 : timers w2 = ∅).
  { subst w2. unfold paused. simpl. by rewrite Ht1, delete_empty. }
  clearbody w2.
  assert (Hpp2 : playpause w2
                 = Ok tt (playing r (slide_time (with_interval None d)) w2))
    by by rewrite (playpause_eq _ _ _ Ha2 Hh2).
  split; [|split].
  - exists w1. split.
    { by rewrite (exec_cons EDestroy _ _ _ Hd), (exec_cons EPlay _ _ _ Hplay). }
    unfold handle_set, timer_running, marked_playing.
    rewrite (state_Some _ _ _ Ha1 Hh1), Hi, Ht1, Hc1, map_size_empty. done.
  - exists w2. split.
    { by rewrite (exec_cons EDestroy _ _ _ Hd), (exec_cons EPlayPause _ _ _ Hpp). }
    unfold handle_set, timer_running.
    rewrite (state_Some _ _ _ Ha2 Hh2), Ht2, map_size_empty. done.
  - eexists. split.
    { rewrite (exec_cons EDestroy _ _ _ Hd), (exec_cons EPlayPause _ _ _ Hpp).
      rewrite (exec_cons EPlayPause _ _ _ Hpp2). reflexivity. }
    unfold handle_set, timer_running, state, playing. simpl. rewrite Ha2.
    simpl.
    rewrite list_lookup_alter_eq, Hh2, Ht2, insert_empty, map_size_singleton.
    done.
Qed.

Lemma play_after_destroy_witness :
  ∃ w', exec [EDestroy; EPlay] (run [EInit no_options; ELoad] (page 2))
          = Ok tt w' ∧
        handle_set w' = true ∧ timer_running w' = false ∧
        marked_playing w' = false.
Proof.
  apply (play_after_destroy (run [EInit no_options; ELoad] (page 2)) 0%nat
           (mkData 2 0 (Some 1%positive) [0; 1]%nat
                   [100; 100]%Q [400; 400]%Q
                   (Some 300%Q) (Some 200%Q) 2500%Q true true)
           1%positive (mkTimer 0 2500%Q)).
  - reflexivity.
  - reflexivity.
  - reflexivity.
  - reflexivity.
Defined.

(** ** What stays fixed after the initialization *)

Lemma geometry_css_hide e : geometry (css_element hide_props e) = geometry e.
Proof.
  unfold geometry, css_element, css_props, hide_props. simpl.
  by rewrite !lookup_insert_ne by done.
Qed.

Lemma geometry_css_show e : geometry (css_element show_props e) = geometry e.
Proof.
  unfold geometry, css_element, css_props, show_props. simpl.
  by rewrite !lookup_insert_ne by done.
Qed.

Lemma geometry_alter (f : Element → Element) h (els : list Element) :
  (∀ e, geometry (f e) = geometry e) →
  geometry <$> alter f h els = geometry <$> els.
Proof.
  intros Hf. revert h. induction els as [|e els IH]; intros [|h]; simpl;
    try done.
  - by rewrite Hf.
  - f_equal. apply IH.
Qed.

Lemma js_index_seq_Some n c h :
  js_index (seq 0 n) c = Some h → 0 ≤ c ∧ h = Z.to_nat c ∧ (h < n)%nat.
Proof.
  unfold js_index. case_decide; [done|]. intros Hl.
  apply lookup_seq in Hl as [-> ?]. simpl. lia.
Qed.

Lemma settled_reveal d0 g x w :
  settled d0 g w → settled d0 g (world_of (_reveal 0 x w)).
Proof.
  intros Hs.
  pose proof Hs as (Ha & Hl & Htm & Hg & Hsl & c & i & Hh & Hc & Hv).
  unfold _reveal, bind, deref. rewrite Hh. simpl.
  destruct (js_index (slides d0) c) as [h|] eqn:Hj; simpl; [|done].
  assert (Hg1 : geometry <$> alter (css_element hide_props) h (dom w) = g).
  { rewrite geometry_alter; [done|apply geometry_css_hide]. }
  assert (Hc' : c = current d0 ∨ is_Some (js_index (slides d0) c)).
  { right. rewrite Hj. by eexists. }
  rewrite Hsl in Hj. apply js_index_seq_Some in Hj as (Hc0 & -> & Hlt).
  assert (Hv1 : ∀ j e,
            alter (css_element hide_props) (Z.to_nat c) (dom w) !! j = Some e →
            opacity e = Some 0%Q).
  { intros j e. destruct (decide (j = Z.to_nat c)) as [->|Hne].
    - rewrite list_lookup_alter_eq.
      destruct (dom w !! Z.to_nat c) as [e0|]; [|done].
      intros [= <-]. apply hide_style.
    - rewrite list_lookup_alter_ne by done. intros He.
      destruct (Hv j e He) as [|[_ Hjc]]; [done|lia]. }
  assert (Hlen1 : length (alter (css_element hide_props) (Z.to_nat c) (dom w))
                  = length (dom w)) by apply length_alter.
  destruct x as [n|]; simpl.
  2: { repeat split; try done; [simpl; by rewrite Hlen1|].
       exists c, i. repeat split; try done. intros j e He. left. eauto. }
  destruct (js_index (slides d0) n) as [h'|] eqn:Hn; simpl.
  2: { repeat split; try done; [simpl; by rewrite Hlen1|].
       exists c, i. repeat split; try done. intros j e He. left. eauto. }
  rewrite Hh. simpl. repeat split; try done.
  - rewrite <- Hg1. apply geometry_alter, geometry_css_show.
  - simpl. by rewrite !length_alter.
  - exists n, i. split; [done|]. split; [right; rewrite Hn; by eexists|].
    rewrite Hsl in Hn. apply js_index_seq_Some in Hn as (Hn0 & -> & Hlt').
    intros j e. simpl. destruct (decide (j = Z.to_nat n)) as [->|Hne].
    + rewrite list_lookup_alter_eq.
      destruct (alter _ _ (dom w) !! Z.to_nat n) as [e0|]; [|done].
      intros [= <-]. right. split; [apply show_style|lia].
    + rewrite list_lookup_alter_ne by done. intros He. left. eauto.
Qed.

Lemma settled_paused d0 g t w :
  settled d0 g w → settled d0 g (paused 0 t w).
Proof.
  intros (Ha & Hl & Htm & Hg & Hsl & c & i & Hh & Hc & Hv).
  unfold paused. repeat split; simpl; try done.
  - intros t' c' Hlk. apply lookup_delete_Some in Hlk as [_ Hlk]. eauto.
  - exists c, None. rewrite Hh. done.
Qed.

Lemma settled_playing d0 g delay w :
  settled d0 g w → settled d0 g (playing 0 delay w).
Proof.
  intros (Ha & Hl & Htm & Hg & Hsl & c & i & Hh & Hc & Hv).
  unfold playing. repeat split; simpl; try done.
  - intros t' c' Hlk.
    apply lookup_insert_Some in Hlk as [[_ <-]|[_ Hlk]]; [done|eauto].
  - exists c, (Some (next_timer w)). rewrite Hh. done.
Qed.

Lemma settled_destroyed d0 g d w :
  settled d0 g w → settled d0 g (destroyed d w).
Proof.
  intros (Ha & Hl & Htm & Hg & Hsl & c & i & Hh & Hc & Hv).
  unfold destroyed. destruct (interval d) as [t|];
    repeat split; simpl; try done; try (by exists c, i).
  intros t' c' Hlk. apply lookup_delete_Some in Hlk as [_ Hlk]. eauto.
Qed.

Lemma settled_state d0 g w :
  settled d0 g w → ∃ d, attached w = Some 0%nat ∧ heap w !! 0%nat = Some d.
Proof.
  intros (Ha & _ & _ & _ & _ & c & i & Hh & _). eexists. by rewrite Hh.
Qed.

Lemma settled_reattach d0 g w :
  settled d0 g w → settled d0 g (set_attached (Some 0%nat) w).
Proof. intros (Ha & Hl & Htm & Hg & Hsl & Hh). by repeat split. Qed.

Lemma settled_navigate d0 g target w :
  settled d0 g w → settled d0 g (world_of (navigate target w)).
Proof.
  intros Hs. destruct (settled_state _ _ _ Hs) as (d & Ha & Hh).
  unfold navigate, _handler, bind, gets. rewrite Ha, (deref_Some _ _ _ Hh).
  simpl.
  assert (Hrest : ∀ w0 d1, settled d0 g w0 → heap w0 !! 0%nat = Some d1 →
            settled d0 g (world_of
              match
                match _reveal 0 (target d1) w0 with
                | Ok _ w1 => ret (Some 0%nat) w1
                | Throw e w1 => Throw e w1
                end
              with
              | Ok a w1 =>
                  match a with
                  | Some x => modify (set_attached (Some x))
                  | None => ret tt
                  end w1
              | Throw e w1 => Throw e w1
              end)).
  { intros w0 d1 H0 Hh0.
    pose proof (settled_reveal d0 g (target d1) w0 H0) as Hr.
    destruct (_reveal 0 (target d1) w0) as [[] w1|e w1]; simpl in *; [|done].
    by apply settled_reattach. }
  destruct (interval d) as [t|] eqn:Hi.
  - rewrite (pause_eq _ _ _ Ha Hh), Hi.
    pose proof (settled_paused d0 g t w Hs) as Hs'.
    destruct (settled_state _ _ _ Hs') as (d' & _ & Hh').
    rewrite Hh'. by apply Hrest.
  - simpl. rewrite Hh. by apply Hrest.
Qed.

Lemma settled_tick d0 g t w :
  settled d0 g w → settled d0 g (world_of (tick t w)).
Proof.
  intros Hs. destruct (settled_state _ _ _ Hs) as (d & Ha & Hh).
  pose proof Hs as (_ & _ & Htm & _).
  unfold tick, bind, gets.
  destruct (timers w !! t) as [c|] eqn:Hc; [|done].
  rewrite (Htm _ _ Hc), (deref_Some _ _ _ Hh). simpl.
  pose proof (settled_reveal d0 g (js_rem (current d + 1) (count d)) w Hs)
    as Hr.
  destruct (_reveal 0 _ w) as [[] w1|e w1]; simpl in *; [|done].
  by apply settled_reattach.
Qed.

Lemma settled_step d0 g e w :
  settled d0 g w → settled d0 g (world_of (step e w)).
Proof.
  intros Hs. destruct (settled_state _ _ _ Hs) as (d & Ha & Hh).
  pose proof Hs as (_ & Hl & _).
  destruct e; unfold step.
  - by rewrite (init_attached _ _ _ Ha).
  - by apply settled_navigate.
  - by apply settled_navigate.
  - by apply settled_navigate.
  - rewrite (play_eq _ _ _ Ha Hh). destruct (interval d); [done|].
    by apply settled_playing.
  - rewrite (pause_eq _ _ _ Ha Hh). destruct (interval d); [|done].
    by apply settled_paused.
  - rewrite (playpause_eq _ _ _ Ha Hh). destruct (interval d).
    + by apply settled_paused.
    + by apply settled_playing.
  - rewrite (destroy_eq _ _ _ Ha Hh). by apply settled_destroyed.
  - by rewrite (window_load_loaded _ Hl).
  - by apply settled_tick.
Qed.

Lemma settled_run d0 g evs w :
  settled d0 g w → settled d0 g (run evs w).
Proof.
  revert w. induction evs as [|e evs IH]; intros w Hs; [done|].
  simpl. apply IH. by apply settled_step.
Qed.

Lemma after_load_heap_length c d w :
  length (heap (after_load c d w)) = length (heap w).
Proof.
  unfold after_load.
  destruct (autostart _ && bool_decide _); simpl;
    [destruct (interval _); simpl|];
    destruct (controls _); simpl;
    by rewrite ?length_alter, ?length_insert.
Qed.

Lemma after_load_loaded c d w : loaded (after_load c d w) = loaded w.
Proof.
  unfold after_load.
  destruct (autostart _ && bool_decide _); simpl;
    [destruct (interval _); simpl|];
    by destruct (controls _).
Qed.

Lemma with_fields_id d :
  with_current (current d) (with_interval (interval d) d) = d.
Proof. by destruct d. Qed.

Lemma after_load_dom c d w :
  dom (after_load c d w)
  = let d2 := resolve_size (mb_width w) (mb_height w)
                (pushed (dom w) (lc_slides c) d) in
    laid_out d2 (seq 0 (length (slides d2))) (dom w).
Proof.
  unfold after_load.
  destruct (autostart _ && bool_decide _); simpl;
    [destruct (interval _); simpl|];
    by destruct (controls _).
Qed.

Lemma settled_initial cls cw ch boxes o :
  let w := run [EInit o; ELoad] (fresh_page cls cw ch boxes) in
  ∃ d, state w = Some d ∧ settled d (geometry <$> dom w) w.
Proof.
  intros w.
  destruct (init_load_state cls cw ch boxes o)
    as (d & Ha & Hh & _ & Hcur & Hsl & _ & _ & _ & _ & Htm & _).
  fold w in Ha, Hh, Htm.
  assert (Hw : w = after_load (mkLoadClosure (seq 0 (length boxes)) 0)
                 (extend_defaults (length boxes) o)
                 (set_loaded true
                    (set_onload [mkLoadClosure (seq 0 (length boxes)) 0]
                       (set_heap [extend_defaults (length boxes) o]
                          (fresh_page cls cw ch boxes))))).
  { subst w. apply exec_run, exec_init_load. }
  assert (Hlen : length (heap w) = 1%nat).
  { rewrite Hw. by rewrite after_load_heap_length. }
  assert (Hl : loaded w = true).
  { rewrite Hw. by rewrite after_load_loaded. }
  assert (Hdom : length (dom w) = length boxes ∧
            ∀ j e, dom w !! j = Some e →
                   opacity e = Some (if decide (j = 0%nat) then 1%Q else 0%Q)).
  { rewrite Hw, after_load_dom. cbv zeta.
    set (w1 := set_loaded true _).
    set (d2 := resolve_size _ _ _).
    pose proof (loaded_data (mb_width w1) (mb_height w1) (dom w1)
                  (length boxes) o) as Hd.
    cbv zeta in Hd. change (resolve_size _ _ _) with d2 in Hd.
    destruct Hd as (_ & _ & _ & Hs2).
    assert (Hd1 : length (dom w1) = length boxes)
      by (subst w1; simpl; apply length_map).
    split; [by rewrite laid_out_length|].
    intros j e. rewrite Hs2, length_seq.
    rewrite laid_out_lookup; [|by rewrite Hd1|lia].
    case_decide as Hj.
    - destruct (dom w1 !! j) as [e0|]; [|done]. simpl. intros [= <-].
      unfold opacity, css_element. cbn [el_style]. apply layout_opacity.
    - intros He. apply lookup_lt_Some in He. lia. }
  destruct Hdom as [Hdl Hop].
  exists d. split; [by apply (state_Some _ 0%nat)|].
  repeat split; try done.
  - intros t c. rewrite Htm. destruct (autostarts o (length boxes)).
    + intros Hlk. by apply lookup_singleton_Some in Hlk as [_ <-].
    + by rewrite lookup_empty.
  - by rewrite Hdl.
  - exists (current d), (interval d). split; [|split; [by left|]].
    + rewrite with_fields_id.
      destruct (heap w) as [|d' [|? ?]]; simpl in *; try discriminate.
      congruence.
    + intros j e He. rewrite (Hop j e He), Hcur.
      case_decide; [right; split; [done|lia]|by left].
Qed.

(** X13: once the load callback has laid the slides out, no event changes a
    slide's measured box or its width, height, left and top styles: the
    commands and the timer only ever write opacity and z-index, and nothing
    is measured or laid out again. *)
Theorem layout_is_final cls cw ch boxes o evs :
  geometry <$> dom (run (EInit o :: ELoad :: evs) (fresh_page cls cw ch boxes))
  = geometry <$> dom (run [EInit o; ELoad] (fresh_page cls cw ch boxes)).
Proof.
  change (EInit o :: ELoad :: evs) with ([EInit o; ELoad] ++ evs).
  rewrite run_app.
  destruct (settled_initial cls cw ch boxes o) as (d0 & _ & Hs).
  by destruct (settled_run _ _ evs _ Hs) as (_ & _ & _ & Hg & _).
Qed.

Lemma stable_core cls cw ch boxes o evs :
  let w0 := run [EInit o; ELoad] (fresh_page cls cw ch boxes) in
  let w := run (EInit o :: ELoad :: evs) (fresh_page cls cw ch boxes) in
  ∃ d0 c i, state w0 = Some d0 ∧ attached w = Some 0%nat ∧
            heap w = [with_current c (with_interval i d0)] ∧
            count d0 = Z.of_nat (length boxes) ∧
            0 ≤ c < Z.max 1 (count d0).
Proof.
  intros w0 w. subst w.
  change (EInit o :: ELoad :: evs) with ([EInit o; ELoad] ++ evs).
  rewrite run_app. fold w0.
  destruct (settled_initial cls cw ch boxes o) as (d0 & Hst0 & Hs).
  fold w0 in Hst0, Hs.
  destruct (init_load_state cls cw ch boxes o)
    as (d0' & Ha0 & Hh0 & Hc0 & Hcur0 & Hsl0 & _).
  fold w0 in Ha0, Hh0.
  assert (d0' = d0) as ->.
  { rewrite (state_Some _ _ _ Ha0 Hh0) in Hst0. congruence. }
  destruct (settled_run _ _ evs _ Hs)
    as (Ha & _ & _ & _ & _ & c & i & Hh & Hc & _).
  exists d0, c, i. repeat split; try done.
  - destruct Hc as [->|[h Hj]]; [lia|].
    unfold js_index in Hj. case_decide; [done|lia].
  - rewrite Hc0. destruct Hc as [->|[h Hj]]; [rewrite Hcur0; lia|].
    rewrite Hsl0 in Hj. unfold js_index in Hj. case_decide; [done|].
    apply lookup_lt_Some in Hj. rewrite length_seq in Hj. lia.
Qed.

(** X14: after the one initialization of a page the state object is never
    replaced or duplicated, and no event, failing ones included, changes
    anything of it but the current index and the timer handle: the slide
    count, the slide handles, the measured widths and heights, the resolved
    container size and the options stay as the load callback left them, and
    the current index stays inside [0, max(1, count)). *)
Theorem state_is_stable cls cw ch boxes o evs :
  let w0 := run [EInit o; ELoad] (fresh_page cls cw ch boxes) in
  let w := run (EInit o :: ELoad :: evs) (fresh_page cls cw ch boxes) in
  ∃ d0 d, state w0 = Some d0 ∧ state w = Some d ∧ heap w = [d] ∧
          d = with_current (current d) (with_interval (interval d) d0) ∧
          count d = Z.of_nat (length boxes) ∧
          0 ≤ current d < Z.max 1 (count d).
Proof.
  intros w0 w.
  destruct (stable_core cls cw ch boxes o evs)
    as (d0 & c & i & Hst0 & Ha & Hh & Hc & Hr).
  fold w0 in Hst0. fold w in Ha, Hh.
  exists d0, (with_current c (with_interval i d0)).
  split; [done|]. split; [unfold state; by rewrite Ha, Hh|]. done.
Qed.

(** X15: after the one initialization of a page no two slides are ever
    visible at once, whatever events follow (jumps to negative indices and
    other failing commands included): every slide has opacity 0, except
    possibly the slide at the current index, which has opacity 1. *)
Theorem never_two_visible cls cw ch boxes o evs :
  let w := run (EInit o :: ELoad :: evs) (fresh_page cls cw ch boxes) in
  ∃ d, state w = Some d ∧
       ∀ j e, dom w !! j = Some e →
              opacity e = Some 0%Q ∨
              (opacity e = Some 1%Q ∧ Z.of_nat j = current d).
Proof.
  intros w. subst w.
  change (EInit o :: ELoad :: evs) with ([EInit o; ELoad] ++ evs).
  rewrite run_app.
  destruct (settled_initial cls cw ch boxes o) as (d0 & _ & Hs).
  destruct (settled_run _ _ evs _ Hs)
    as (Ha & _ & _ & _ & _ & c & i & Hh & _ & Hv).
  exists (with_current c (with_interval i d0)).
  split; [unfold state; by rewrite Ha, Hh|]. exact Hv.
Qed.

(** ** [jump] on a board initialized once *)

Lemma single_init_board cls cw ch boxes o evs :
  (1 ≤ length boxes)%nat → forallb in_range evs = true →
  let w := run (EInit o :: ELoad :: evs) (fresh_page cls cw ch boxes) in
  ∃ d, board_at 0 d w ∧ count d = Z.of_nat (length boxes).
Proof.
  intros Hlen Hevs w.
  assert (Hne : boxes ≠ []) by (intros ->; simpl in Hlen; lia).
  destruct (fresh_board cls cw ch boxes o Hne) as (w0 & d0 & Hex0 & Hb0 & _).
  destruct (board_exec evs w0 Hevs) as (w' & Hex & r & d & Hb).
  { by exists 0%nat, d0. }
  assert (Hw : w = w').
  { subst w. change (EInit o :: ELoad :: evs) with ([EInit o; ELoad] ++ evs).
    by rewrite run_app, (exec_run _ _ _ Hex0), (exec_run _ _ _ Hex). }
  destruct (stable_core cls cw ch boxes o evs)
    as (d0' & c & i & _ & Ha' & Hh' & Hc & _).
  fold w in Ha', Hh'. rewrite Hw in Ha', Hh'.
  pose proof Hb as (Ha & Hh & _).
  rewrite Ha in Ha'. injection Ha' as ->.
  rewrite Hh' in Hh. injection Hh as <-.
  eexists. split; [rewrite Hw; exact Hb|exact Hc].
Qed.

(** X16: on a board with at least one slide that was initialized once, [jump]
    with a non-negative index [n] returns and reveals slide
    [n mod count]: that slide becomes the current and the one visible
    slide (slide numbers are taken modulo the slide count). *)
Theorem jump_reveals_modulo cls cw ch boxes o evs n :
  (1 ≤ length boxes)%nat → forallb in_range evs = true → 0 ≤ n →
  let w := run (EInit o :: ELoad :: evs) (fresh_page cls cw ch boxes) in
  let m := n mod Z.of_nat (length boxes) in
  ∃ w' d', jump n w = Ok tt w' ∧ state w' = Some d' ∧
           current d' = m ∧ shows w' (Z.to_nat m).
Proof.
  intros Hlen Hevs Hn w m.
  destruct (single_init_board cls cw ch boxes o evs Hlen Hevs) as (d & Hb & Hc).
  fold w in Hb.
  destruct (jump_nonneg 0 d w n Hb Hn) as (w' & d' & Hj & Hst & Hcur & Hsh).
  rewrite Hc in Hcur, Hsh. by exists w', d'.
Qed.

Lemma jump_reveals_modulo_witness :
  ∃ w' d', jump 7 (run [EInit no_options; ELoad; ENext; EPlay] (page 3))
             = Ok tt w' ∧
           state w' = Some d' ∧ current d' = 7 mod 3 ∧
           shows w' (Z.to_nat (7 mod 3)).
Proof.
  apply (jump_reveals_modulo [] 300%Q 200%Q (replicate 3 (100%Q, 400%Q))
           no_options [ENext; EPlay] 7).
  - simpl. lia.
  - reflexivity.
  - lia.
Defined.

(** X17: on such a board, [jump] with an index whose JavaScript remainder by the
    slide count is negative (a negative index that is no multiple of the
    count) stops autoplay, hides the current slide and throws a [TypeError]
    on [data.slides] read at the negative remainder: the current index is
    not updated and every slide is left with opacity 0. *)
Theorem jump_negative_remainder cls cw ch boxes o evs n :
  (1 ≤ length boxes)%nat → forallb in_range evs = true →
  Z.rem n (Z.of_nat (length boxes)) < 0 →
  let w := run (EInit o :: ELoad :: evs) (fresh_page cls cw ch boxes) in
  ∃ d w' d', state w = Some d ∧ jump n w = Throw TypeError w' ∧
             state w' = Some d' ∧ current d' = current d ∧
             ∀ j e, dom w' !! j = Some e → opacity e = Some 0%Q.
Proof.
  intros Hlen Hevs Hn w.
  destruct (single_init_board cls cw ch boxes o evs Hlen Hevs) as (d & Hb & Hc).
  fold w in Hb. rewrite <- Hc in Hn.
  destruct (jump_negative 0 d w n Hb Hn) as (w' & d' & Hj & Hst & Hcur & Hop).
  pose proof Hb as (Ha & Hh & _).
  exists d, w', d'. split; [by apply (state_Some _ 0%nat)|]. done.
Qed.

Lemma jump_negative_remainder_witness :
  ∃ d w' d',
    state (run [EInit no_options; ELoad; ENext] (page 3)) = Some d ∧
    jump (-4) (run [EInit no_options; ELoad; ENext] (page 3))
      = Throw TypeError w' ∧
    state w' = Some d' ∧ current d' = current d ∧
    ∀ j e, dom w' !! j = Some e → opacity e = Some 0%Q.
Proof.
  apply (jump_negative_remainder [] 300%Q 200%Q (replicate 3 (100%Q, 400%Q))
           no_options [ENext] (-4)).
  - simpl. lia.
  - reflexivity.
  - reflexivity.
Defined.

(** ** Centring *)

Lemma half_nonneg (x : Q) : (0 <= x)%Q → (0 <= x / 2)%Q.
Proof. intros H. unfold Qdiv. change (/ 2)%Q with (1 # 2)%Q. lra. Qed.

Lemma half_nonpos (x : Q) : (x <= 0)%Q → (x / 2 <= 0)%Q.
Proof. intros H. unfold Qdiv. change (/ 2)%Q with (1 # 2)%Q. lra. Qed.

(** The offset [Math.max(0, (outer - inner) / 2)] leaves equal margins on
    both sides of a box that fits, and is 0 for a box that does not. *)
Lemma offset_centres (outer inner : Q) :
  let l := Math_max 0 ((outer - inner) / 2)%Q in
  if Qle_bool inner outer then (l + inner + l == outer)%Q else (l == 0)%Q.
Proof.
  intros l. subst l. unfold Math_max.
  destruct (Qle_bool inner outer) eqn:Hle.
  - apply Qle_bool_iff in Hle.
    assert (H0 : (0 <= (outer - inner) / 2)%Q) by (apply half_nonneg; lra).
    rewrite (Q.max_r _ _ H0). unfold Qdiv. change (/ 2)%Q with (1 # 2)%Q. lra.
  - assert (Hlt : ¬ (inner <= outer)%Q).
    { intros H. apply Qle_bool_iff in H. congruence. }
    apply Q.max_l. apply half_nonpos. lra.
Qed.

Lemma init_slides_offsets w r d i wi hi :
  heap w !! r = Some d →
  slides d = seq 0 (length (dom w)) →
  (i < length (dom w))%nat →
  widths d !! i = Some wi → heights d !! i = Some hi →
  let cW := if falsy (width d) then mb_width w else num (width d) in
  let cH := if falsy (height d) then mb_height w else num (height d) in
  ∃ w' e, _init_slides r w = Ok tt w' ∧ dom w' !! i = Some e ∧
          el_style e !! "left"%string
            = Some (Math_max 0 ((cW - wi) / 2)%Q) ∧
          el_style e !! "top"%string
            = Some (Math_max 0 ((cH - hi) / 2)%Q).
Proof.
  intros Hh Hs Hi Hwi Hhi cW cH.
  rewrite (_init_slides_eq _ _ _ Hh).
  set (d' := resolve_size (mb_width w) (mb_height w) d).
  destruct (resolve_size_fields (mb_width w) (mb_height w) d)
    as (_ & _ & _ & Hs' & Hw' & Hh' & _ & _ & _ & Hcw & Hch).
  fold d' in Hs', Hw', Hh', Hcw, Hch.
  destruct (lookup_lt_is_Some_2 (dom w) i Hi) as [e0 He0].
  eexists _, (css_element (layout_props d' i) e0).
  split; [reflexivity|]. simpl. split.
  { rewrite Hs', Hs, length_seq, laid_out_lookup; [|congruence|lia].
    rewrite decide_True by lia. by rewrite He0. }
  destruct (layout_sizes d' i wi hi (el_style e0)) as (_ & _ & H3 & H4);
    [congruence|congruence|].
  rewrite Hcw in H3. rewrite Hch in H4. done.
Qed.

(** X18: on whole pixel sizes below 2^52, where the arithmetic of the code
    is exact, [_init_slides] centres every slide in the container:
    horizontally and vertically, a slide that fits gets equal margins on
    both sides (offset + size + offset is the container size), and a slide
    larger than the container is pinned at offset 0. *)
Theorem layout_centres (w : World) (r : ref) (d : Data) (i : nat) (wi hi : Q) :
  heap w !! r = Some d →
  slides d = seq 0 (length (dom w)) →
  (i < length (dom w))%nat →
  widths d !! i = Some wi → heights d !! i = Some hi →
  let cW := if falsy (width d) then mb_width w else num (width d) in
  let cH := if falsy (height d) then mb_height w else num (height d) in
  whole_pixels wi = true → whole_pixels hi = true →
  whole_pixels cW = true → whole_pixels cH = true →
  ∃ w' e l t, _init_slides r w = Ok tt w' ∧ dom w' !! i = Some e ∧
    el_style e !! "left"%string = Some l ∧
    el_style e !! "top"%string = Some t ∧
    (if Qle_bool wi cW then (l + wi + l == cW)%Q else (l == 0)%Q) ∧
    (if Qle_bool hi cH then (t + hi + t == cH)%Q else (t == 0)%Q).
Proof.
  intros Hh Hs Hi Hwi Hhi cW cH _ _ _ _.
  destruct (init_slides_offsets w r d i wi hi Hh Hs Hi Hwi Hhi)
    as (w' & e & Hrun & He & Hl & Ht).
  exists w', e, (Math_max 0 ((cW - wi) / 2)%Q), (Math_max 0 ((cH - hi) / 2)%Q).
  repeat split; try done; apply offset_centres.
Qed.

Lemma layout_centres_witness :
  ∃ w' e l t, _init_slides 0 measured_page = Ok tt w' ∧
    dom w' !! 1%nat = Some e ∧
    el_style e !! "left"%string = Some l ∧
    el_style e !! "top"%string = Some t ∧
    (l + 100 + l == 300)%Q ∧ (t == 0)%Q.
Proof.
  apply (layout_centres measured_page 0%nat measured_data 1%nat 100%Q 400%Q).
  - reflexivity.
  - reflexivity.
  - simpl. lia.
  - reflexivity.
  - reflexivity.
  - reflexivity.
  - reflexivity.
  - reflexivity.
  - reflexivity.
Defined.

(** ** Several [init] calls before the load event *)

Lemma inits_fresh cls cw ch boxes o k :
  let n := length boxes in
  run (replicate k (EInit o)) (fresh_page cls cw ch boxes)
  = set_onload (load_closures n k)
      (set_heap (replicate k (extend_defaults n o))
         (fresh_page cls cw ch boxes)).
Proof.
  intros n. induction k as [|k IH]; [done|].
  rewrite replicate_snoc, run_app, IH. simpl.
  unfold init, _do_initialize, bind, gets, alloc, modify. simpl.
  rewrite length_seq, length_map, length_replicate. fold n.
  assert (H1 : replicate k (extend_defaults n o) ++ [extend_defaults n o]
               = extend_defaults n o :: replicate k (extend_defaults n o)).
  { by rewrite <- replicate_snoc. }
  assert (H2 : load_closures n k ++ [mkLoadClosure (seq 0 n) k]
               = load_closures n (S k)).
  { unfold load_closures. by rewrite seq_S, fmap_app. }
  by rewrite H1, H2.
Qed.

Lemma loaded_fields cw ch els l d :
  let d2 := resolve_size cw ch (pushed els l d) in
  interval d2 = interval d ∧ autostart d2 = autostart d ∧
  controls d2 = controls d ∧ count d2 = count d.
Proof.
  intros d2. subst d2.
  destruct (resolve_size_fields cw ch (pushed els l d))
    as (-> & _ & -> & _ & _ & _ & _ & -> & -> & _).
  destruct (pushed_fields els l d)
    as (-> & _ & -> & _ & _ & _ & -> & -> & _).
  done.
Qed.

Lemma after_load_heap_ne c d w r :
  r ≠ lc_data c → heap (after_load c d w) !! r = heap w !! r.
Proof.
  intros Hne. unfold after_load.
  destruct (autostart _ && bool_decide _); simpl;
    [destruct (interval _); simpl|];
    destruct (controls _); simpl;
    by rewrite ?list_lookup_alter_ne, ?list_lookup_insert_ne by done.
Qed.

Lemma after_load_timers c d w :
  let d2 := resolve_size (mb_width w) (mb_height w)
              (pushed (dom w) (lc_slides c) d) in
  let auto := autostart d2 && bool_decide (1 < count d2) in
  interval d2 = None →
  timers (after_load c d w)
    = (if auto
       then <[next_timer w := mkTimer (lc_data c) (slide_time d2)]> (timers w)
       else timers w) ∧
  next_timer (after_load c d w)
    = (if auto then Pos.succ (next_timer w) else next_timer w).
Proof.
  intros d2 auto Hint. unfold after_load. fold d2. fold auto. rewrite Hint.
  by destruct auto, (controls d2).
Qed.

(** What the load callbacks have built when the first [j] of [k] closures
    have run. *)
Lemma load_loop o n k m j w :
  let d0 := extend_defaults n o in
  (j + m = k)%nat →
  length (heap w) = k →
  (∀ r, (j ≤ r < k)%nat → heap w !! r = Some d0) →
  length (ctrls w) = (if default true (o_controls o) then j else 0%nat) →
  size (timers w) = (if autostarts o n then j else 0%nat) →
  (∀ t, is_Some (timers w !! t) → (t < next_timer w)%positive) →
  attached w = match j with O => None | S j' => Some j' end →
  ∃ w', for_each ((λ r, mkLoadClosure (seq 0 n) r) <$> seq j m)
                 on_window_load w = Ok tt w' ∧
        length (heap w') = k ∧
        length (ctrls w') = (if default true (o_controls o) then k else 0%nat) ∧
        size (timers w') = (if autostarts o n then k else 0%nat) ∧
        attached w' = match k with O => None | S k' => Some k' end.
Proof.
  intros d0. revert j w.
  induction m as [|m IH]; intros j w Hjm Hlen Hh Hk Ht Hf Ha.
  - simpl. exists w. assert (j = k) as -> by lia. done.
  - simpl.
    set (c := mkLoadClosure (seq 0 n) j).
    assert (Hj : heap w !! lc_data c = Some d0) by (apply Hh; simpl; lia).
    erewrite bind_Ok by apply (on_window_load_eq _ _ _ Hj).
    pose proof (loaded_fields (mb_width w) (mb_height w) (dom w)
                  (lc_slides c) d0) as (Hi2 & Hau2 & Hco2 & Hc2).
    pose proof (after_load_timers c d0 w) as Htm.
    pose proof (after_load_ctrls c d0 w) as Hct.
    cbv zeta in Htm, Hct.
    set (d2 := resolve_size _ _ _) in *.
    destruct Htm as [Htm Hnt]; [by rewrite Hi2|].
    specialize (Hct ltac:(by rewrite Hi2)).
    assert (Hauto : autostart d2 && bool_decide (1 < count d2) = autostarts o n).
    { unfold autostarts. by rewrite Hau2, Hc2. }
    rewrite Hauto in Htm, Hnt.
    apply (IH (S j)).
    + lia.
    + by rewrite after_load_heap_length.
    + intros r Hr. rewrite after_load_heap_ne by (simpl; lia).
      apply Hh. lia.
    + rewrite Hct, Hco2. simpl. destruct (default true (o_controls o)); [|done].
      rewrite length_app. simpl. lia.
    + rewrite Htm. destruct (autostarts o n); [|done].
      rewrite map_size_insert_None; [lia|].
      destruct (timers w !! next_timer w) eqn:Hlk; [|done].
      assert (next_timer w < next_timer w)%positive by (apply Hf; by eexists).
      lia.
    + intros t. rewrite Htm, Hnt. destruct (autostarts o n); [|apply Hf].
      intros [x Hx]. apply lookup_insert_Some in Hx as [[<- _]|[_ Hx]]; [lia|].
      assert (t < next_timer w)%positive by (apply Hf; by eexists). lia.
    + by rewrite after_load_attached.
Qed.

(** X19: every [init] call made before the window load event builds its own
    state object and binds its own load callback, because the state is
    attached only when the callback runs: after [k] such calls and the load
    event there are [k] state objects, [k] controls blocks (when controls
    are on), [k] running timers (when autoplay starts), and the object
    created last is the one attached. *)
Theorem init_repeated_before_load cls cw ch boxes o k :
  let w := run (replicate k (EInit o) ++ [ELoad]) (fresh_page cls cw ch boxes) in
  length (heap w) = k ∧
  length (ctrls w) = (if default true (o_controls o) then k else 0%nat) ∧
  size (timers w) = (if autostarts o (length boxes) then k else 0%nat) ∧
  attached w = match k with O => None | S k' => Some k' end.
Proof.
  intros w. subst w. rewrite run_app, inits_fresh.
  set (n := length boxes).
  set (w1 := set_onload _ _).
  destruct (load_loop o n k k 0 (set_loaded true w1))
    as (w' & Hloop & Hres); try done.
  - simpl. apply length_replicate.
  - intros r Hr. simpl. apply lookup_replicate_2. lia.
  - simpl. by destruct (default true (o_controls o)).
  - simpl. rewrite map_size_empty. by destruct (autostarts o n).
  - intros t [x Hx]. simpl in Hx. by rewrite lookup_empty in Hx.
  - assert (Hrun : run [ELoad] w1 = w').
    { simpl. unfold window_load, bind, gets, modify. simpl.
      unfold load_closures. by rewrite Hloop. }
    by rewrite Hrun.
Qed.

(** ** Timer commands and the slides *)

(** X20: [play], [pause], [playpause] and [destroy] never touch the slides: on
    an attached state they return, and leave the styles of every slide and
    the current index as they were. *)
Theorem timer_commands_keep_slides (w : World) (d : Data) (e : Event) :
  state w = Some d →
  is_command e = true → is_navigation e = false →
  ∃ w' d', step e w = Ok tt w' ∧ dom w' = dom w ∧
           state w' = Some d' ∧ current d' = current d.
Proof.
  unfold state. intros Hst Hc Hn.
  destruct (attached w) as [r|] eqn:Ha; [|done]. simpl in Hst.
  destruct e; try discriminate; unfold step.
  - rewrite (play_eq _ _ _ Ha Hst). destruct (interval d) as [t|].
    + exists w, d. by rewrite Ha.
    + eexists _, (with_interval (Some (next_timer w)) d).
      split; [reflexivity|]. unfold playing. simpl. rewrite Ha. simpl.
      by rewrite list_lookup_alter_eq, Hst.
  - rewrite (pause_eq _ _ _ Ha Hst). destruct (interval d) as [t|].
    + eexists _, (with_interval None d).
      split; [reflexivity|]. unfold paused. simpl.
      by rewrite list_lookup_alter_eq, Hst.
    + exists w, d. by rewrite Ha.
  - rewrite (playpause_eq _ _ _ Ha Hst). destruct (interval d) as [t|].
    + eexists _, (with_interval None d).
      split; [reflexivity|]. unfold paused. simpl.
      by rewrite list_lookup_alter_eq, Hst.
    + eexists _, (with_interval (Some (next_timer w)) d).
      split; [reflexivity|]. unfold playing. simpl. rewrite Ha. simpl.
      by rewrite list_lookup_alter_eq, Hst.
  - rewrite (destroy_eq _ _ _ Ha Hst). exists (destroyed d w), d.
    split; [reflexivity|]. unfold destroyed.
    destruct (interval d); simpl; by rewrite Ha.
Qed.

Lemma timer_commands_keep_slides_witness :
  ∃ w' d',
    step EPause (run [EInit no_options; ELoad; ETick 1%positive] (page 3))
      = Ok tt w' ∧
    dom w' = dom (run [EInit no_options; ELoad; ETick 1%positive] (page 3)) ∧
    state w' = Some d' ∧ current d' = 1.
Proof.
  apply (timer_commands_keep_slides
           (run [EInit no_options; ELoad; ETick 1%positive] (page 3))
           (mkData 3 1 (Some 1%positive) [0; 1; 2]%nat
                   [100; 100; 100]%Q [400; 400; 400]%Q
                   (Some 300%Q) (Some 200%Q) 2500%Q true true)
           EPause).
  - reflexivity.
  - reflexivity.
  - reflexivity.
Defined.
